(** * vectorflow: the embedding worker and the job status aggregator

    A shallow embedding of [src/worker/worker.py] (the chunker, the
    embedding retry loop, the vector-store write and the status report of
    [process_batch]) and of the status aggregator the worker reports to.

    Python values are modelled as follows.
    - [str] is a sequence of characters: [text := list ascii]; slices are
      [take]/[drop] with Python's clamping of the bounds.
    - [int] is [Z].
    - An expression that can raise evaluates to a [result]; the exceptions
      are the subclasses of [Exception], the ones [except Exception]
      catches.
    - The remote collaborators ([openai], [pinecone], [requests]) are an
      oracle, [World]; every call is appended to a chronological trace of
      [event]s, and the oracle sees the trace so far. *)

From Stdlib Require Import Ascii.
From stdpp Require Import base numbers list strings gmap pretty.

Local Open Scope Z_scope.

(** ** Python primitives *)

Definition text := list ascii.

Inductive exn :=
| ValueError          (* range() arg 3 must not be zero *)
| AttributeError      (* a class attribute that does not exist *)
| LookupError         (* KeyError / IndexError / TypeError of a subscript *)
| UnboundLocalError   (* a local variable read before assignment *)
| RemoteError (what : string).  (* anything a remote library raises *)

Inductive result (A : Type) :=
| Ok (a : A)
| Raise (e : exn).
Arguments Ok {A} a.
Arguments Raise {A} e.

(** [len(l)] *)
Definition len {A} (l : list A) : Z := Z.of_nat (length l).

(** A slice bound [i] of a sequence of length [n], as CPython's
    [PySlice_AdjustIndices] does for step 1: a negative bound counts from
    the end, and the result is clamped to [0..n]. *)
Definition py_adjust (n i : Z) : Z :=
  if i <? 0 then Z.max 0 (i + n) else Z.min i n.

(** [l[lo:hi]] *)
Definition py_slice {A} (l : list A) (lo hi : Z) : list A :=
  let lo' := py_adjust (len l) lo in
  let hi' := py_adjust (len l) hi in
  take (Z.to_nat (hi' - lo')) (drop (Z.to_nat lo') l).

(** The number of elements of [range(start, stop, step)] for [step <> 0]
    (CPython's [compute_range_length]). *)
Definition py_range_length (start stop step : Z) : Z :=
  let '(lo, hi, st) :=
    if 0 <? step then (start, stop, step) else (stop, start, - step) in
  if hi <=? lo then 0 else (hi - lo - 1) / st + 1.

(** [range(start, stop, step)], as the list of its elements. *)
Definition py_range (start stop step : Z) : result (list Z) :=
  if step =? 0 then Raise ValueError
  else Ok ((λ k : nat, start + Z.of_nat k * step) <$>
           seq 0 (Z.to_nat (py_range_length start stop step))).

(** [out = []; for x in xs: out.append(f(x))] *)
Definition py_for_append {A B} (xs : list A) (f : A → B) : list B :=
  fold_left (λ out x, out ++ [f x]) xs [].

(** ** The chunker (worker.py, [chunk_data]) *)

Definition chunk_data {A} (data : list A) (chunk_size chunk_overlap : Z)
  : result (list (list A)) :=
  match py_range 0 (len data) (chunk_size - chunk_overlap) with
  | Raise e => Raise e
  | Ok range =>
      Ok (py_for_append range (λ i, py_slice data i (i + chunk_size)))
  end.

(** The number of windows [chunk_data] produces for a positive step. *)
Definition n_chunks (L step : Z) : nat := Z.to_nat ((L + step - 1) / step).

(** ** Data model of the worker *)

(** Modelled from the spec: the BatchStatus enum of src/api/batch_status.py,
    which the worker imports and which is not among the sources.  The spec
    lists its members: NOT_STARTED, IN_PROGRESS, COMPLETED, FAILED.
    [getattr] is the attribute access [BatchStatus.<name>]: a name that is
    not a member raises AttributeError. *)
Module BatchStatus.
Inductive t := NOT_STARTED | IN_PROGRESS | COMPLETED | FAILED.

Definition getattr (name : string) : result t :=
  if String.eqb name "NOT_STARTED" then Ok NOT_STARTED
  else if String.eqb name "IN_PROGRESS" then Ok IN_PROGRESS
  else if String.eqb name "COMPLETED" then Ok COMPLETED
  else if String.eqb name "FAILED" then Ok FAILED
  else Raise AttributeError.

Definition eqb (a b : t) : bool :=
  match a, b with
  | NOT_STARTED, NOT_STARTED | IN_PROGRESS, IN_PROGRESS
  | COMPLETED, COMPLETED | FAILED, FAILED => true
  | _, _ => false
  end.
End BatchStatus.

(** [batch['embeddings_metadata']] *)
Record EmbeddingsMetadata := {
  embeddings_type : string;
  em_api_key : string;
  chunk_size : Z;
  chunk_overlap : Z }.

(** [batch['vector_db_metadata']] *)
Record VectorDBMetadata := {
  vector_db_type : string;
  vdb_api_key : string;
  environment : string;
  index_name : string }.

(** The batch dictionary the worker dequeues; the identifiers are modelled
    by their [str()] rendering. *)
Record Batch := {
  job_id : string;
  batch_id : string;
  source_data : text;
  embeddings_metadata : EmbeddingsMetadata;
  vector_db_metadata : VectorDBMetadata }.

(** What [print] writes, by call site. *)
Inductive message :=
| Error_embedding_batch (e : exn)
| Unsupported_embeddings_type (embeddings_type : string)
| API_call_failed (e : exn)
| API_call_failed_after_5_attempts
| API_call_no_value_after_5_attempts
| Unsupported_vector_DB_type (vector_db_type : string)
| Index_does_not_exist (index_name environment : string).

(** The object [pinecone.Index(name)] returns, seen through [not index]. *)
Record Index := { Index_bool : bool }.

(** The value [index.upsert] returns, seen through its truth value. *)
Record UpsertResponse := { UpsertResponse_bool : bool }.

(** The truth value of what [embed_openai_batch] returns: [None] (Python's
    None) or the value of [index.upsert]. *)
Definition py_bool (v : option UpsertResponse) : bool :=
  match v with
  | None => false
  | Some r => UpsertResponse_bool r
  end.

(** The truth value of a list. *)
Definition truthy {A} (l : list A) : bool :=
  match l with
  | [] => false
  | _ :: _ => true
  end.

Definition base_request_url : string := "http://localhost:5000".

Section Worker.
(** The type of one element of [response["data"][0]["embedding"]], the
    value the worker iterates over as the embeddings of the batch. *)
Context {Vec : Type}.

(** The provider's reply, seen through the one expression the worker
    evaluates on it: [response["data"][0]["embedding"]], a list or the
    error of the subscripts. *)
Record Response := { data_0_embedding : result (list Vec) }.

(** One element of the list handed to [index.upsert]:
    [{"id": .., "values": .., "metadata": {"source_text": ..}}]. *)
Record UpsertRecord := {
  id : string;
  values : Vec;
  metadata_source_text : text }.

(** The calls that leave the worker, in the order they are made, with
    what they returned.  [ECall_chunk_data] marks the call of the (pure)
    chunker and [ESet_api_key] the assignment [openai.api_key = ..]. *)
Inductive event :=
| EPrint (m : message)
| ESet_api_key (key : string)
| ECall_chunk_data (data : text) (chunk_size chunk_overlap : Z)
| ECreate (model : string) (input : list text) (out : result Response)
| ESleep (seconds : Z)
| EPinecone_init (api_key environment : string) (out : result unit)
| EPinecone_Index (name : string) (out : result Index)
| EUpsert (vectors : list UpsertRecord) (out : result UpsertResponse)
| EPut (url batch_id : string) (batch_status : BatchStatus.t)
       (out : result unit).

(** The remote collaborators.  Each answer may depend on the arguments
    and on everything that happened before. *)
Record World := {
  world_create : list event → string → list text → result Response;
  world_pinecone_init : list event → string → string → result unit;
  world_pinecone_Index : list event → string → result Index;
  world_upsert : list event → list UpsertRecord → result UpsertResponse;
  world_put : list event → string → string → BatchStatus.t → result unit }.

(** *** The monad of the worker: a trace and exceptions *)

Definition M (A : Type) : Type := list event → result A * list event.

Definition ret {A} (a : A) : M A := λ tr, (Ok a, tr).

Definition bind {A B} (m : M A) (k : A → M B) : M B :=
  λ tr, match m tr with
        | (Ok a, tr') => k a tr'
        | (Raise e, tr') => (Raise e, tr')
        end.

Definition lift {A} (r : result A) : M A := λ tr, (r, tr).

Definition emit (e : event) : M unit := λ tr, (Ok tt, tr ++ [e]).

(** [try: body  except Exception as e: handler(e)] *)
Definition try_except {A} (body : M A) (handler : exn → M A) : M A :=
  λ tr, match body tr with
        | (Ok a, tr') => (Ok a, tr')
        | (Raise e, tr') => handler e tr'
        end.
End Worker.

Arguments Response : clear implicits.
Arguments UpsertRecord : clear implicits.
Arguments event : clear implicits.
Arguments World : clear implicits.
Arguments M : clear implicits.

Notation "x <- m ;; k" := (bind m (λ x, k))
  (at level 100, m at next level, right associativity, only parsing).
Notation "m ;;; k" := (bind m (λ _, k))
  (at level 100, right associativity, only parsing).

(** ** The worker (worker.py) *)

(** How one iteration of the retry loop ends. *)
Inductive control :=
| Normal                                  (* the body ran to its end *)
| Break                                   (* [break] *)
| Return (v : option UpsertResponse).     (* [return] *)

Section Process.
Context {Vec : Type} (w : World Vec).

Definition print (m : message) : M Vec unit := emit (EPrint m).

Definition time_sleep (seconds : Z) : M Vec unit := emit (ESleep seconds).

(** [requests.put(f'{base_request_url}/jobs/{job_id}', ..)]; the function
    returns None. *)
Definition update_job_status (job_id : string) (batch_status : BatchStatus.t)
    (batch_id : string) : M Vec unit :=
  λ tr,
    let url := base_request_url +:+ "/jobs/" +:+ job_id in
    let out := world_put w tr url batch_id batch_status in
    (out, tr ++ [EPut url batch_id batch_status out]).

(** [openai.Embedding.create(model=.., input=..)], with the exception it
    may raise reified, for the [try] around it. *)
Definition openai_Embedding_create (model : string) (input : list text)
  : M Vec (result (Response Vec)) :=
  λ tr,
    let out := world_create w tr model input in
    (Ok out, tr ++ [ECreate model input out]).

Definition pinecone_init (api_key environment : string) : M Vec unit :=
  λ tr,
    let out := world_pinecone_init w tr api_key environment in
    (out, tr ++ [EPinecone_init api_key environment out]).

Definition pinecone_Index (name : string) : M Vec Index :=
  λ tr,
    let out := world_pinecone_Index w tr name in
    (out, tr ++ [EPinecone_Index name out]).

Definition index_upsert (vectors : list (UpsertRecord Vec))
  : M Vec UpsertResponse :=
  λ tr,
    let out := world_upsert w tr vectors in
    (out, tr ++ [EUpsert vectors out]).

(** [create_source_chunk_dict]: [zip] stops at the shorter sequence and
    [enumerate] numbers the pairs from 0. *)
Definition create_source_chunk_dict (chunked_data : list text)
    (embeddings : list Vec) (batch_id job_id : string)
  : list (UpsertRecord Vec) :=
  let embedding_source_pair := zip embeddings chunked_data in
  py_for_append (zip (seq 0 (length embedding_source_pair))
                     embedding_source_pair)
    (λ '(i, (embedding, source_text)),
       {| id := job_id +:+ "_" +:+ batch_id +:+ "_" +:+ pretty i;
          values := embedding;
          metadata_source_text := source_text |}).

Definition write_embeddings_to_pinecone
    (upsert_list : list (UpsertRecord Vec))
    (vector_db_metadata : VectorDBMetadata)
  : M Vec (option UpsertResponse) :=
  pinecone_init (vdb_api_key vector_db_metadata)
                (environment vector_db_metadata) ;;;
  index <- pinecone_Index (index_name vector_db_metadata) ;;
  if negb (Index_bool index) then
    print (Index_does_not_exist (index_name vector_db_metadata)
                                (environment vector_db_metadata)) ;;;
    ret None
  else
    r <- index_upsert upsert_list ;;
    ret (Some r).

Definition write_embeddings_to_vector_db (embeddings : list Vec)
    (chunked_data : list text) (vector_db_metadata : VectorDBMetadata)
    (batch_id job_id : string) : M Vec (option UpsertResponse) :=
  if String.eqb (vector_db_type vector_db_metadata) "PINECONE" then
    let upsert_list :=
      create_source_chunk_dict chunked_data embeddings batch_id job_id in
    write_embeddings_to_pinecone upsert_list vector_db_metadata
  else
    print (Unsupported_vector_DB_type (vector_db_type vector_db_metadata)) ;;;
    ret None.

(** The two places of the loop that give the batch up: a message, the
    status report with [BatchStatus.Failed] as its argument, [return]. *)
Definition fail_and_return (batch : Batch) (m : message) : M Vec control :=
  print m ;;;
  batch_status <- lift (BatchStatus.getattr "Failed") ;;
  update_job_status (job_id batch) batch_status (batch_id batch) ;;;
  ret (Return None).

(** The [except Exception as e:] block of iteration [i]. *)
Definition except_block (batch : Batch) (i : Z) (e : exn) : M Vec control :=
  print (API_call_failed e) ;;;
  time_sleep (2 ^ i) ;;;
  if i =? 4 then fail_and_return batch API_call_failed_after_5_attempts
  else ret Normal.

(** The statement after the [try], [if i == 4: ..]. *)
Definition after_try (batch : Batch) (i : Z) : M Vec control :=
  if i =? 4 then fail_and_return batch API_call_no_value_after_5_attempts
  else ret Normal.

(** The [except] block and, when it does not return, the statement after
    the [try]. *)
Definition except_then_after (batch : Batch) (i : Z) (e : exn)
  : M Vec control :=
  c <- except_block batch i e ;;
  match c with
  | Normal => after_try batch i
  | _ => ret c
  end.

(** One iteration of [for i in range(5)]; [response] is the local
    variable, which the iteration may assign. *)
Definition loop_body (batch : Batch) (chunked_data : list text) (i : Z)
    (response : option (Response Vec))
  : M Vec (control * option (Response Vec)) :=
  out <- openai_Embedding_create "text-embedding-ada-002" chunked_data ;;
  match out with
  | Ok r =>
      match data_0_embedding r with
      | Ok embedding =>
          if truthy embedding then ret (Break, Some r)
          else c <- after_try batch i ;; ret (c, Some r)
      | Raise e => c <- except_then_after batch i e ;; ret (c, Some r)
      end
  | Raise e => c <- except_then_after batch i e ;; ret (c, response)
  end.

Fixpoint for_loop (batch : Batch) (chunked_data : list text)
    (range : list Z) (response : option (Response Vec))
  : M Vec (control * option (Response Vec)) :=
  match range with
  | [] => ret (Normal, response)
  | i :: range' =>
      r <- loop_body batch chunked_data i response ;;
      match fst r with
      | Normal => for_loop batch chunked_data range' (snd r)
      | Break => ret (Normal, snd r)
      | Return v => ret (Return v, snd r)
      end
  end.

Definition embed_openai_batch (batch : Batch)
  : M Vec (option UpsertResponse) :=
  let em := embeddings_metadata batch in
  emit (ESet_api_key (em_api_key em)) ;;;
  emit (ECall_chunk_data (source_data batch) (chunk_size em)
                         (chunk_overlap em)) ;;;
  chunked_data <- lift (chunk_data (source_data batch) (chunk_size em)
                                   (chunk_overlap em)) ;;
  range <- lift (py_range 0 5 1) ;;
  r <- for_loop batch chunked_data range None ;;
  match fst r with
  | Return v => ret v
  | _ =>
      match snd r with
      | None => lift (Raise UnboundLocalError)
      | Some response =>
          embeddings <- lift (data_0_embedding response) ;;
          write_embeddings_to_vector_db embeddings chunked_data
            (vector_db_metadata batch) (batch_id batch) (job_id batch)
      end
  end.

Definition process_batch (batch : Batch) : M Vec unit :=
  let embeddings_type := embeddings_type (embeddings_metadata batch) in
  if String.eqb embeddings_type "OPEN_AI" then
    try_except
      (vectors_uploaded <- embed_openai_batch batch ;;
       if py_bool vectors_uploaded then
         batch_status <- lift (BatchStatus.getattr "COMPLETED") ;;
         update_job_status (job_id batch) batch_status (batch_id batch)
       else
         batch_status <- lift (BatchStatus.getattr "FAILED") ;;
         update_job_status (job_id batch) batch_status (batch_id batch))
      (λ e,
         print (Error_embedding_batch e) ;;;
         batch_status <- lift (BatchStatus.getattr "FAILED") ;;
         update_job_status (job_id batch) batch_status (batch_id batch))
  else
    print (Unsupported_embeddings_type embeddings_type) ;;;
    batch_status <- lift (BatchStatus.getattr "FAILED") ;;
    update_job_status (job_id batch) batch_status (batch_id batch).

(** A run of [process_batch] from the empty trace. *)
Definition run (batch : Batch) : result unit * list (event Vec) :=
  process_batch batch [].
End Process.

(** ** What a trace shows *)

(** The retry loop seen from outside: provider calls and sleeps. *)
Inductive tick {Vec : Type} :=
| Attempt (out : result (Response Vec))
| Sleep (seconds : Z).
Arguments tick : clear implicits.

Section Observers.
Context {Vec : Type}.
Implicit Types (tr : list (event Vec)) (out : result (Response Vec)).

(** The statuses reported, one per [requests.put]. *)
Definition reports tr : list BatchStatus.t :=
  omap (λ e, match e with EPut _ _ s _ => Some s | _ => None end) tr.

(** What the [requests.put] calls returned. *)
Definition report_outcomes tr : list (result unit) :=
  omap (λ e, match e with EPut _ _ _ o => Some o | _ => None end) tr.

(** What the provider calls returned. *)
Definition attempts tr : list (result (Response Vec)) :=
  omap (λ e, match e with ECreate _ _ out => Some out | _ => None end) tr.

Definition sleeps tr : list Z :=
  omap (λ e, match e with ESleep s => Some s | _ => None end) tr.

Definition ticks tr : list (tick Vec) :=
  omap (λ e, match e with
             | ECreate _ _ out => Some (Attempt out)
             | ESleep s => Some (Sleep s)
             | _ => None
             end) tr.

(** The [index.upsert] calls: the records and what the call returned. *)
Definition upserts tr
  : list (list (UpsertRecord Vec) * result UpsertResponse) :=
  omap (λ e, match e with EUpsert v out => Some (v, out) | _ => None end) tr.

(** The calls to the vector store, of any kind. *)
Definition store_calls tr : list (event Vec) :=
  omap (λ e, match e with
             | EPinecone_init _ _ _ | EPinecone_Index _ _ | EUpsert _ _ =>
                 Some e
             | _ => None
             end) tr.

(** The calls of the chunker. *)
Definition chunk_calls tr : list (event Vec) :=
  omap (λ e, match e with ECall_chunk_data _ _ _ => Some e | _ => None end)
       tr.

(** The attempt raised inside the [try]: the call itself, or the
    subscripts on its response. *)
Definition attempt_raised out : bool :=
  match out with
  | Raise _ => true
  | Ok r => match data_0_embedding r with Raise _ => true | Ok _ => false end
  end.

(** The attempt gave no usable embedding: it raised, or the value at
    [response["data"][0]["embedding"]] is falsy. *)
Definition attempt_failed out : bool :=
  match out with
  | Raise _ => true
  | Ok r => match data_0_embedding r with
            | Raise _ => true
            | Ok embedding => negb (truthy embedding)
            end
  end.

(** The attempts [outs], numbered from [i], each followed by a sleep of
    [2^i] when it raised. *)
Fixpoint backoff_schedule (i : Z) (outs : list (result (Response Vec)))
  : list (tick Vec) :=
  match outs with
  | [] => []
  | out :: outs' =>
      Attempt out ::
      (if attempt_raised out then [Sleep (2 ^ i)] else []) ++
      backoff_schedule (i + 1) outs'
  end.

(** An [index.upsert] call returned a truthy value. *)
Definition upsert_acknowledged tr : bool :=
  existsb (λ c, match snd c with
                | Ok r => UpsertResponse_bool r
                | Raise _ => false
                end) (upserts tr).

(** No [requests.put] raised. *)
Definition reports_delivered tr : bool :=
  forallb (λ o, match o with Ok _ => true | Raise _ => false end)
          (report_outcomes tr).
End Observers.

(** ** The status aggregator *)

(** Modelled from the spec: the JobStatus enum of src/api/job_status.py,
    which is not among the sources, with the members the spec lists. *)
Module JobStatus.
Inductive t :=
| NOT_STARTED | IN_PROGRESS | PARTIALLY_COMPLETE | COMPLETED | FAILED.
End JobStatus.

Module Aggregator.
(** Modelled from the spec: the Job record of the Queue Store (the
    sources do not include it), with the attributes the spec's data model
    gives it. *)
Record Job := {
  webhook_url : string;
  total_batches : Z;
  batches_processed : Z;
  batches_succeeded : Z;
  status : JobStatus.t }.

(** The Job table keyed by job id and the status of each batch keyed by
    batch id. *)
Record Store := {
  jobs : gmap string Job;
  batches : gmap string BatchStatus.t }.

Inductive outcome :=
| fully_complete
| more_work_remains
| partially_complete
| job_failed.

Inductive error := NotFound | StaleUpdateError.

Definition terminal (s : BatchStatus.t) : bool :=
  match s with
  | BatchStatus.COMPLETED | BatchStatus.FAILED => true
  | _ => false
  end.

(** Modelled from the spec: the status-update operation of the
    Orchestrator (src/api/pipeline.py and src/api/app.py, which are not
    among the sources), by the transition rule of the spec's Status
    Aggregator, its steps 1 to 7 in that order, together with what the
    spec says of FAILED: it is terminal and sticky (step 5), must never
    be overwritten by a later update for the same entity, and a FAILED
    job remains FAILED even if other batches later report success, while
    the job status read reflects the latest committed counters.  So an
    update that reaches a job already FAILED commits steps 2 to 4 (the
    batch status and the counters) and leaves the job FAILED, with the
    outcome that names this state; steps 6 and 7 set the status of a job
    that is not FAILED.  An unknown job or batch is the not-found outcome
    of the spec's status-report interface. *)
Definition update_status (st : Store) (job_id batch_id : string)
    (new_batch_status : BatchStatus.t) : Store * (error + outcome) :=
  match jobs st !! job_id, batches st !! batch_id with
  | Some job, Some batch_status =>
      (* 1 *)
      if terminal batch_status then (st, inl StaleUpdateError)
      else
        (* 2 *)
        let batches' := <[batch_id := new_batch_status]> (batches st) in
        (* 3 *)
        let processed := batches_processed job + 1 in
        (* 4 *)
        let succeeded :=
          if BatchStatus.eqb new_batch_status BatchStatus.COMPLETED
          then batches_succeeded job + 1 else batches_succeeded job in
        let commit (s : JobStatus.t) :=
          {| jobs := <[job_id := {| webhook_url := webhook_url job;
                                    total_batches := total_batches job;
                                    batches_processed := processed;
                                    batches_succeeded := succeeded;
                                    status := s |}]> (jobs st);
             batches := batches' |} in
        (* 5 *)
        if BatchStatus.eqb new_batch_status BatchStatus.FAILED then
          (commit JobStatus.FAILED, inr job_failed)
        else
          match status job with
          (* FAILED is sticky: never overwritten *)
          | JobStatus.FAILED => (commit JobStatus.FAILED, inr job_failed)
          | _ =>
              (* 6 *)
              if processed <? total_batches job then
                (commit JobStatus.IN_PROGRESS, inr more_work_remains)
              (* 7 *)
              else if succeeded =? total_batches job then
                (commit JobStatus.COMPLETED, inr fully_complete)
              else
                (commit JobStatus.PARTIALLY_COMPLETE, inr partially_complete)
          end
  | _, _ => (st, inl NotFound)
  end.

(** A sequence of status reports (job id, batch id, new batch status),
    applied in order; a report that is refused leaves the store as it
    was. *)
Definition run_updates (st : Store)
    (updates : list (string * string * BatchStatus.t)) : Store :=
  foldl (λ st u, (update_status st u.1.1 u.1.2 u.2).1) st updates.

Definition job_status (st : Store) (job_id : string) : option JobStatus.t :=
  status <$> jobs st !! job_id.

(** A job of two batches, none reported yet. *)
Definition two_batches : Store :=
  {| jobs := {[ "j" := {| webhook_url := "";
                          total_batches := 2;
                          batches_processed := 0;
                          batches_succeeded := 0;
                          status := JobStatus.NOT_STARTED |} ]};
     batches := {[ "j-0" := BatchStatus.NOT_STARTED;
                   "j-1" := BatchStatus.NOT_STARTED ]} |}.
End Aggregator.

(** The index [name] is not there: whenever asked, [pinecone.Index(name)]
    gives a falsy object (the case the worker tests for) or raises. *)
Definition index_missing {Vec} (w : World Vec) (name : string) : Prop :=
  ∀ tr, match world_pinecone_Index w tr name with
        | Ok index => Index_bool index = false
        | Raise _ => True
        end.

(** ** Concrete batches and worlds *)

Definition str (s : string) : text := String.list_ascii_of_string s.

Definition a_batch (embeddings_type vector_db_type : string)
    (chunk_size chunk_overlap : Z) : Batch :=
  {| job_id := "7";
     batch_id := "7-0";
     source_data := str "abcdefgh";
     embeddings_metadata :=
       {| embeddings_type := embeddings_type;
          em_api_key := "sk";
          chunk_size := chunk_size;
          chunk_overlap := chunk_overlap |};
     vector_db_metadata :=
       {| vector_db_type := vector_db_type;
          vdb_api_key := "pk";
          environment := "env";
          index_name := "idx" |} |}.

(** A reply with one embedding element per input, [10, 11, ..]. *)
Definition good_response (input : list text) : Response Z :=
  {| data_0_embedding := Ok ((λ k : nat, 10 + Z.of_nat k) <$>
                             seq 0 (length input)) |}.

(** A reply with an empty list where the embedding should be. *)
Definition empty_response : Response Z := {| data_0_embedding := Ok [] |}.

(** A world whose provider behaves as [provider] says on its [n]-th call
    (counted from 0), whose index is there iff [index_there], whose upsert
    acknowledges iff [ack], and whose status endpoint answers iff
    [put_ok]. *)
Definition a_world (provider : nat → list text → result (Response Z))
    (index_there ack put_ok : bool) : World Z :=
  {| world_create := λ tr _ input, provider (length (attempts tr)) input;
     world_pinecone_init := λ _ _ _, Ok tt;
     world_pinecone_Index := λ _ _, Ok {| Index_bool := index_there |};
     world_upsert := λ _ _, Ok {| UpsertResponse_bool := ack |};
     world_put := λ _ _ _ _,
       if put_ok then Ok tt else Raise (RemoteError "ConnectionError") |}.

(** The provider answers at once. *)
Definition provider_up : nat → list text → result (Response Z) :=
  λ _ input, Ok (good_response input).

(** The provider raises on every call. *)
Definition provider_down : nat → list text → result (Response Z) :=
  λ _ _, Raise (RemoteError "APIError").

(** The provider returns an empty embedding once, then answers. *)
Definition provider_empty_once : nat → list text → result (Response Z) :=
  λ n input, if (n =? 0)%nat then Ok empty_response
             else Ok (good_response input).

(** The provider raises [k] times, then answers. *)
Definition provider_raises (k : nat) : nat → list text → result (Response Z) :=
  λ n input, if (n <? k)%nat then Raise (RemoteError "APIError")
             else Ok (good_response input).

(** A provider that returns a single embedding element whatever the
    input. *)
Definition provider_short : nat → list text → result (Response Z) :=
  λ _ _, Ok {| data_0_embedding := Ok [10] |}.

(** ** Auxiliary definitions of the proofs *)

(** [i, i+1, .., i+n-1] *)
Fixpoint range_from (i : Z) (n : nat) : list Z :=
  match n with
  | O => []
  | S n' => i :: range_from (i + 1) n'
  end.

(** The events the retry loop itself produces. *)
Definition loop_event {Vec} (e : event Vec) : Prop :=
  match e with
  | ECreate _ _ _ | ESleep _ | EPrint _ => True
  | _ => False
  end.

(** What [write_embeddings_to_vector_db] guarantees of its result [res]
    and of the events [d] it adds. *)
Definition store_facts {Vec} (w : World Vec) (embeddings : list Vec)
    (chunked_data : list text) (vector_db_metadata : VectorDBMetadata)
    (batch_id job_id : string) (res : result (option UpsertResponse))
    (d : list (event Vec)) : Prop :=
  reports d = [] ∧ report_outcomes d = [] ∧ attempts d = [] ∧ ticks d = []
  ∧ chunk_calls d = []
  ∧ match res with
    | Ok v => py_bool v = upsert_acknowledged d
    | Raise _ => upsert_acknowledged d = false
    end
  ∧ (String.eqb (vector_db_type vector_db_metadata) "PINECONE" = false →
     store_calls d = [])
  ∧ (index_missing w (index_name vector_db_metadata) → upserts d = [])
  ∧ (∀ c, c ∈ upserts d →
       c.1 = create_source_chunk_dict chunked_data embeddings batch_id job_id).

(** What [embed_openai_batch] guarantees of its result [res] and of the
    events [d] it adds. *)
Definition embed_facts {Vec} (w : World Vec) (batch : Batch)
    (res : result (option UpsertResponse)) (d : list (event Vec)) : Prop :=
  reports d = [] ∧ report_outcomes d = []
  ∧ ticks d = backoff_schedule 0 (attempts d)
  ∧ (length (attempts d) ≤ 5)%nat
  ∧ (∀ fails out, attempts d = fails ++ [out] →
       forallb attempt_failed fails = true)
  ∧ match res with
    | Ok v => py_bool v = upsert_acknowledged d
    | Raise _ => upsert_acknowledged d = false
    end
  ∧ (forallb attempt_failed (attempts d) = true →
     store_calls d = [] ∧ ∃ e, res = Raise e)
  ∧ (String.eqb (vector_db_type (vector_db_metadata batch)) "PINECONE" = false →
     store_calls d = [])
  ∧ (index_missing w (index_name (vector_db_metadata batch)) → upserts d = [])
  ∧ (∀ c, c ∈ upserts d →
       ∃ chunked_data r embeddings,
         chunk_data (source_data batch)
                    (chunk_size (embeddings_metadata batch))
                    (chunk_overlap (embeddings_metadata batch))
         = Ok chunked_data
         ∧ last (attempts d) = Some (Ok r)
         ∧ data_0_embedding r = Ok embeddings
         ∧ c.1 = create_source_chunk_dict chunked_data embeddings
                   (batch_id batch) (job_id batch)).

(** The events [process_batch] itself produces around the embedding. *)
Definition report_event {Vec} (e : event Vec) : Prop :=
  match e with
  | EPrint _ | EPut _ _ _ _ => True
  | _ => False
  end.

(** The status [process_batch] reports first. *)
Definition verdict {Vec} (tr : list (event Vec)) : BatchStatus.t :=
  if upsert_acknowledged tr then BatchStatus.COMPLETED else BatchStatus.FAILED.

(** ** More observers, for the properties beyond the claims *)

(** The seconds slept in a run, added up. *)
Definition total_sleep {Vec} (tr : list (event Vec)) : Z :=
  foldr Z.add 0 (sleeps tr).

(** The sleeps among the ticks. *)
Definition tick_sleeps {Vec} (ts : list (tick Vec)) : list Z :=
  omap (λ t, match t with Sleep s => Some s | Attempt _ => None end) ts.

(** What each event of a run of [process_batch] on [batch] carries when it
    is derived from the batch: the provider gets the model name and the
    chunks of the batch, pinecone gets the credentials and the index name
    of the batch, every record identifier begins with the job and batch
    identifiers, every report goes to the job's URL with the batch
    identifier and one of the two final statuses, and a sleep lasts
    between 1 and 16. *)
Definition conforms {Vec} (batch : Batch) (e : event Vec) : Prop :=
  let em := embeddings_metadata batch in
  let vdm := vector_db_metadata batch in
  match e with
  | EPrint _ => True
  | ESet_api_key key => key = em_api_key em
  | ECall_chunk_data data size overlap =>
      data = source_data batch ∧ size = chunk_size em
      ∧ overlap = chunk_overlap em
  | ECreate model input _ =>
      model = "text-embedding-ada-002"
      ∧ chunk_data (source_data batch) (chunk_size em) (chunk_overlap em)
        = Ok input
  | ESleep seconds => 1 ≤ seconds ≤ 16
  | EPinecone_init api_key env _ =>
      api_key = vdb_api_key vdm ∧ env = environment vdm
  | EPinecone_Index name _ => name = index_name vdm
  | EUpsert vectors _ =>
      ∀ (i : nat) r, vectors !! i = Some r →
        id r = job_id batch +:+ "_" +:+ batch_id batch +:+ "_" +:+ pretty i
  | EPut url bid st _ =>
      url = base_request_url +:+ "/jobs/" +:+ job_id batch
      ∧ bid = batch_id batch
      ∧ (st = BatchStatus.COMPLETED ∨ st = BatchStatus.FAILED)
  end.

(** A computation only appends events, and every event it appends
    satisfies [P]. *)
Definition appends {Vec A} (P : event Vec → Prop) (m : M Vec A) : Prop :=
  ∀ tr, ∃ d, snd (m tr) = tr ++ d ∧ Forall P d.

(** The calls to the vector store of one batch come in this order:
    [pinecone.init], then [pinecone.Index] when the first returned, then
    one [index.upsert] when the index object is truthy. *)
Definition store_shape {Vec} (calls : list (event Vec)) : Prop :=
  match calls with
  | [] => True
  | [EPinecone_init _ _ _] => True
  | [EPinecone_init _ _ (Ok _); EPinecone_Index _ _] => True
  | [EPinecone_init _ _ (Ok _); EPinecone_Index _ (Ok index); EUpsert _ _] =>
      Index_bool index = true
  | _ => False
  end.

(** ** The polling loop (worker.py, [__main__]) *)

(** What [requests.get] returns, seen through the two expressions the loop
    evaluates on it: [response.status_code] and [response.json['batch']],
    the batch or the error of the subscript. *)
Record HttpResponse := {
  status_code : Z;
  json_batch : result Batch }.

(** The calls of the polling loop; the events of [process_batch] are
    wrapped in [PWorker]. *)
Inductive poll_event {Vec : Type} :=
| PGet (url : string) (out : result HttpResponse)
| PSleep (seconds : Z)
| PPrint_unexpected_status (status_code : Z)
| PWorker (e : event Vec).
Arguments poll_event : clear implicits.

(** The queue endpoint, and the collaborators of each [process_batch]
    call; both may depend on everything that happened before. *)
Record PollWorld {Vec : Type} := {
  poll_get : list (poll_event Vec) → string → result HttpResponse;
  poll_worker : list (poll_event Vec) → World Vec }.
Arguments PollWorld : clear implicits.

Section Poll.
Context {Vec : Type} (pw : PollWorld Vec).

(** One pass through the body of [while True:]. *)
Definition iteration (tr : list (poll_event Vec))
  : result unit * list (poll_event Vec) :=
  let url := base_request_url +:+ "/dequeue" in
  let out := poll_get pw tr url in
  let tr1 := tr ++ [PGet url out] in
  match out with
  | Raise e => (Raise e, tr1)
  | Ok response =>
      if status_code response =? 404 then (Ok tt, tr1 ++ [PSleep 5])
      else if status_code response =? 200 then
        match json_batch response with
        | Raise e => (Raise e, tr1)
        | Ok batch =>
            let r := run (poll_worker pw tr1) batch in
            (fst r, tr1 ++ (PWorker <$> snd r))
        end
      else (Ok tt, tr1 ++ [PPrint_unexpected_status (status_code response)])
  end.

(** The first [n] passes of [while True:].  The loop has no exit: [Ok]
    says that [n] passes ran to their end, [Raise] that a pass raised and
    the loop, which has no handler, ended there. *)
Fixpoint main_loop (n : nat) (tr : list (poll_event Vec))
  : result unit * list (poll_event Vec) :=
  match n with
  | O => (Ok tt, tr)
  | S n' =>
      match iteration tr with
      | (Ok _, tr') => main_loop n' tr'
      | (Raise e, tr') => (Raise e, tr')
      end
  end.
End Poll.

Section PollObservers.
Context {Vec : Type}.
Implicit Types (tr : list (poll_event Vec)).

(** The answers of the queue endpoint. *)
Definition polls tr : list (result HttpResponse) :=
  omap (λ e, match e with PGet _ out => Some out | _ => None end) tr.

(** The sleeps of the loop itself. *)
Definition poll_sleeps tr : list Z :=
  omap (λ e, match e with PSleep s => Some s | _ => None end) tr.

(** The events of the [process_batch] calls. *)
Definition worker_events tr : list (event Vec) :=
  omap (λ e, match e with PWorker e' => Some e' | _ => None end) tr.
End PollObservers.

(** A queue that answers 404 on every request. *)
Definition empty_queue : PollWorld Z :=
  {| poll_get := λ _ _, Ok {| status_code := 404;
                              json_batch := Raise LookupError |};
     poll_worker := λ _, a_world provider_up true true true |}.

(** A queue that hands out [batch] on every request, to a worker whose
    collaborators are [w]. *)
Definition full_queue (batch : Batch) (w : World Z) : PollWorld Z :=
  {| poll_get := λ _ _, Ok {| status_code := 200; json_batch := Ok batch |};
     poll_worker := λ _, w |}.

(** A queue whose response object has no subscriptable [json], as the
    response of [requests.get], where [json] is a method: it answers 404
    on the first request and 200 from then on, and [response.json['batch']]
    raises. *)
Definition unreadable_queue : PollWorld Z :=
  {| poll_get := λ tr _,
       Ok {| status_code := match tr with [] => 404 | _ => 200 end;
             json_batch := Raise LookupError |};
     poll_worker := λ _, a_world provider_up true true true |}.

(** The inputs of the provider calls. *)
Definition provider_inputs {Vec} (tr : list (event Vec)) : list (list text) :=
  omap (λ e, match e with ECreate _ input _ => Some input | _ => None end) tr.

(** A batch with an overlap larger than the chunk size. *)
Definition overlapping_batch : Batch := a_batch "OPEN_AI" "PINECONE" 1 2.

(** Why the polling loop ended with the exception [e], read off the last
    event: the dequeue request raised it, or the response had status 200
    and reading its batch raised it, or the last status report of
    [process_batch] raised it. *)
Definition crash_cause {Vec} (e : exn) (last_event : option (poll_event Vec))
  : Prop :=
  match last_event with
  | Some (PGet _ (Raise e')) => e' = e
  | Some (PGet _ (Ok response)) =>
      status_code response = 200 ∧ json_batch response = Raise e
  | Some (PWorker (EPut _ _ _ (Raise e'))) => e' = e
  | _ => False
  end.

(** ** Lemmas on the primitives *)

Lemma py_for_append_acc {A B} (xs : list A) (f : A → B) (acc : list B) :
  fold_left (λ out x, out ++ [f x]) xs acc = acc ++ (f <$> xs).
Proof.
  revert acc. induction xs as [|x xs IH]; intros acc; simpl.
  - by rewrite app_nil_r.
  - rewrite IH. by rewrite <- app_assoc.
Qed.

Lemma py_for_append_fmap {A B} (xs : list A) (f : A → B) :
  py_for_append xs f = f <$> xs.
Proof. unfold py_for_append. by rewrite py_for_append_acc. Qed.

Lemma py_slice_nonneg {A} (l : list A) (lo hi : Z) :
  0 ≤ lo → lo ≤ hi →
  py_slice l lo hi = take (Z.to_nat (hi - lo)) (drop (Z.to_nat lo) l).
Proof.
  intros Hlo Hhi. unfold py_slice, py_adjust, len.
  destruct (Z.ltb_spec lo 0); [lia|].
  destruct (Z.ltb_spec hi 0); [lia|].
  destruct (Z_le_gt_dec lo (Z.of_nat (length l))) as [Hin|Hout].
  - rewrite (Z.min_l lo) by lia.
    destruct (Z_le_gt_dec hi (Z.of_nat (length l))).
    + by rewrite (Z.min_l hi) by lia.
    + rewrite (Z.min_r hi) by lia.
      rewrite !take_ge; [done| |]; rewrite length_drop; lia.
  - rewrite !drop_ge by lia. by rewrite !take_nil.
Qed.

Lemma py_range_length_pos (stop step : Z) :
  0 ≤ stop → 0 < step →
  py_range_length 0 stop step = (stop + step - 1) / step.
Proof.
  intros Hstop Hstep. unfold py_range_length.
  destruct (Z.ltb_spec 0 step); [|lia].
  destruct (Z.leb_spec stop 0).
  - assert (stop = 0) as -> by lia.
    symmetry. apply Z.div_small. lia.
  - replace (stop + step - 1) with ((stop - 0 - 1) + 1 * step) by lia.
    by rewrite Z.div_add by lia.
Qed.

Lemma py_range_length_neg (stop step : Z) :
  0 ≤ stop → step < 0 → py_range_length 0 stop step = 0.
Proof.
  intros Hstop Hstep. unfold py_range_length.
  destruct (Z.ltb_spec 0 step); [lia|].
  destruct (Z.leb_spec 0 stop); [done|lia].
Qed.

(** For a positive step [chunk_data] is the list of the slices
    [data[k*step : k*step + size]], [k < n_chunks]. *)
Lemma chunk_data_pos {A} (data : list A) (size overlap : Z) :
  overlap < size →
  chunk_data data size overlap =
    Ok ((λ k : nat, py_slice data (Z.of_nat k * (size - overlap))
                                  (Z.of_nat k * (size - overlap) + size))
        <$> seq 0 (n_chunks (len data) (size - overlap))).
Proof.
  intros Hlt. unfold chunk_data, py_range.
  destruct (Z.eqb_spec (size - overlap) 0); [lia|].
  rewrite py_for_append_fmap, <- list_fmap_compose.
  rewrite py_range_length_pos by (unfold len; lia).
  done.
Qed.

Lemma n_chunks_lt (L step : Z) (k : nat) :
  0 ≤ L → 0 < step →
  (k < n_chunks L step)%nat ↔ Z.of_nat k * step < L.
Proof.
  intros HL Hstep. unfold n_chunks.
  assert (0 ≤ (L + step - 1) / step) by (apply Z.div_pos; lia).
  rewrite Nat2Z.inj_lt, Z2Nat.id by done.
  split; intros Hk.
  - assert (Z.of_nat k + 1 ≤ (L + step - 1) / step) as Hle by lia.
    apply (Z.mul_le_mono_nonneg_r _ _ step) in Hle; [|lia].
    pose proof (Z.mul_div_le (L + step - 1) step Hstep). nia.
  - destruct (Z_lt_ge_dec (Z.of_nat k) ((L + step - 1) / step)); [done|].
    pose proof (Z.mul_succ_div_gt (L + step - 1) step Hstep). nia.
Qed.

Lemma take_min_length {A} (n : nat) (l : list A) :
  take n l = take (n `min` length l) l.
Proof.
  destruct (Nat.le_ge_cases n (length l)).
  - by rewrite Nat.min_l.
  - rewrite Nat.min_r by done. by rewrite !take_ge.
Qed.

(** The first [s] characters of the windows at [0, s, 2s, ..] add up to a
    prefix of the data. *)
Lemma concat_strides {A} (data : list A) (s n : nat) :
  concat ((λ k : nat, take s (drop (k * s) data)) <$> seq 0 n)
  = take (n * s) data.
Proof.
  induction n as [|n IH].
  - done.
  - rewrite seq_S, fmap_app, concat_app, IH. simpl.
    rewrite app_nil_r, take_take_drop. f_equal. lia.
Qed.

(** ** The chunker *)

Lemma chunk_window {A} (data : list A) (size overlap : Z) (k : nat) :
  0 ≤ overlap → overlap < size →
  py_slice data (Z.of_nat k * (size - overlap))
                (Z.of_nat k * (size - overlap) + size)
  = take (Z.to_nat size) (drop (k * Z.to_nat (size - overlap)) data).
Proof.
  intros Hov Hlt. rewrite py_slice_nonneg by nia.
  f_equal; [f_equal; lia|]. f_equal. nia.
Qed.

Lemma chunk_data_lookup {A} (data : list A) (size overlap : Z) ws (k : nat) :
  0 ≤ overlap → overlap < size →
  chunk_data data size overlap = Ok ws →
  ws !! k =
    if decide (Z.of_nat k * (size - overlap) < len data)
    then Some (take (Z.to_nat size)
                    (drop (k * Z.to_nat (size - overlap)) data))
    else None.
Proof.
  intros Hov Hlt Hws. rewrite chunk_data_pos in Hws by done.
  injection Hws as <-. rewrite list_lookup_fmap.
  case_decide as Hk.
  - apply n_chunks_lt in Hk; [|unfold len; lia|lia].
    rewrite (lookup_seq_lt _ _ _ Hk). simpl. by rewrite chunk_window.
  - rewrite lookup_seq_ge; [done|].
    destruct (Nat.le_gt_cases (n_chunks (len data) (size - overlap)) k) as [|Hk'];
      [done|].
    apply n_chunks_lt in Hk'; [done|unfold len; lia|lia].
Qed.

(** C4 (as amended): for [size > overlap >= 0] the chunker returns, in
    order, the windows [data[k*step : k*step+size]], [step = size - overlap],
    for [k = 0, 1, ..] while [k*step < len(data)].  Window [k] has length
    [min(size, len(data) - k*step)], so it has length [size] whenever
    [k*step + size <= len(data)]; the last [step] characters dropped, what
    is left of a window is a prefix of the next one, [overlap] characters
    long when the window has length [size]; the first [step] characters of
    the windows, concatenated, are the input; and the empty input gives the
    empty list. *)
Theorem chunk_data_windows {A} (data : list A) (size overlap : Z) :
  0 ≤ overlap → overlap < size →
  let step := size - overlap in
  ∃ ws,
    chunk_data data size overlap = Ok ws
    ∧ (∀ k : nat,
         ws !! k =
           if decide (Z.of_nat k * step < len data)
           then Some (py_slice data (Z.of_nat k * step)
                                    (Z.of_nat k * step + size))
           else None)
    ∧ (∀ (k : nat) w, ws !! k = Some w →
         len w = Z.min size (len data - Z.of_nat k * step)
         ∧ (Z.of_nat k * step + size ≤ len data → len w = size))
    ∧ (∀ (k : nat) w w', ws !! k = Some w → ws !! S k = Some w' →
         drop (Z.to_nat step) w = take (length w - Z.to_nat step) w'
         ∧ (len w = size → len (drop (Z.to_nat step) w) = overlap))
    ∧ concat (take (Z.to_nat step) <$> ws) = data
    ∧ (data = [] → ws = []).
Proof.
  intros Hov Hlt step.
  destruct (chunk_data data size overlap) as [ws|e] eqn:Hws;
    [|by rewrite chunk_data_pos in Hws].
  exists ws. split; [done|].
  pose proof (λ k, chunk_data_lookup data size overlap ws k Hov Hlt Hws) as Hlk.
  fold step in Hlk.
  assert (∀ (k : nat) w, ws !! k = Some w →
            Z.of_nat k * step < len data
            ∧ w = take (Z.to_nat size) (drop (k * Z.to_nat step) data)) as Hw.
  { intros k w Hk. rewrite Hlk in Hk. case_decide; [|done].
    by injection Hk as <-. }
  assert (∀ (k : nat) w, ws !! k = Some w →
            len w = Z.min size (len data - Z.of_nat k * step)) as Hlen.
  { intros k w [Hk ->]%Hw. unfold len in *.
    rewrite length_take, length_drop. nia. }
  split; [|split; [|split; [|split]]].
  - intros k. rewrite Hlk. case_decide; [|done].
    unfold step. by rewrite chunk_window.
  - intros k w Hk. split; [by apply Hlen|].
    intros Hfull. rewrite (Hlen _ _ Hk). lia.
  - intros k w w' Hk Hk'. split.
    + apply Hw in Hk as [Hk ->]. apply Hw in Hk' as [Hk' ->].
      rewrite skipn_firstn_comm, drop_drop, take_take, length_take, length_drop.
      replace (S k * Z.to_nat step)%nat
        with (k * Z.to_nat step + Z.to_nat step)%nat by lia.
      set (rest := drop (k * Z.to_nat step + Z.to_nat step) data).
      assert (length rest = length data - (k * Z.to_nat step + Z.to_nat step))%nat
        as Hrest by (unfold rest; by rewrite length_drop).
      rewrite (take_min_length (Z.to_nat size - Z.to_nat step)).
      rewrite (take_min_length (_ `min` _) rest).
      f_equal. rewrite Hrest. lia.
    + intros Hfull. unfold len in *. rewrite length_drop. subst step. lia.
  - assert (ws = (λ k : nat, take (Z.to_nat size)
                     (drop (k * Z.to_nat step) data))
                 <$> seq 0 (n_chunks (len data) step)) as ->.
    { rewrite chunk_data_pos in Hws by done. injection Hws as <-.
      apply list_fmap_ext. intros _ k _. by rewrite chunk_window. }
    rewrite <- list_fmap_compose.
    erewrite list_fmap_ext; [rewrite concat_strides|].
    + apply take_ge.
      pose proof (proj1 (n_chunks_lt (len data) step
                           (n_chunks (len data) step) ltac:(unfold len; lia)
                           ltac:(unfold step; lia))) as Hn.
      destruct (Z_lt_ge_dec (Z.of_nat (n_chunks (len data) step) * step)
                            (len data)) as [Hlt'|Hge].
      * apply n_chunks_lt in Hlt'; [lia|unfold len; lia|unfold step; lia].
      * assert (Z.of_nat (n_chunks (len data) step * Z.to_nat step)
                = Z.of_nat (n_chunks (len data) step) * step) as Hmul
          by (rewrite Nat2Z.inj_mul, Z2Nat.id; unfold step; lia).
        apply Nat2Z.inj_le. rewrite Hmul. unfold len in *. lia.
    + intros _ k _. simpl. rewrite take_take. f_equal. unfold step. lia.
  - intros ->. rewrite chunk_data_pos in Hws by done.
    injection Hws as <-. unfold n_chunks, len. simpl.
    rewrite Z.div_small by lia. done.
Qed.

(** C4, witness: eight characters, windows of four with one shared. *)
Lemma chunk_data_windows_witness :
  0 ≤ 1 ∧ 1 < 4 ∧
  ∃ ws,
    chunk_data (str "abcdefgh") 4 1 = Ok ws
    ∧ (∀ k : nat,
         ws !! k =
           if decide (Z.of_nat k * (4 - 1) < len (str "abcdefgh"))
           then Some (py_slice (str "abcdefgh") (Z.of_nat k * (4 - 1))
                               (Z.of_nat k * (4 - 1) + 4))
           else None)
    ∧ (∀ (k : nat) w, ws !! k = Some w →
         len w = Z.min 4 (len (str "abcdefgh") - Z.of_nat k * (4 - 1))
         ∧ (Z.of_nat k * (4 - 1) + 4 ≤ len (str "abcdefgh") → len w = 4))
    ∧ (∀ (k : nat) w w', ws !! k = Some w → ws !! S k = Some w' →
         drop (Z.to_nat (4 - 1)) w = take (length w - Z.to_nat (4 - 1)) w'
         ∧ (len w = 4 → len (drop (Z.to_nat (4 - 1)) w) = 1))
    ∧ concat (take (Z.to_nat (4 - 1)) <$> ws) = str "abcdefgh"
    ∧ (str "abcdefgh" = [] → ws = []).
Proof.
  split; [lia|]. split; [lia|].
  apply (chunk_data_windows (str "abcdefgh") 4 1); lia.
Defined.

(** C4, counterexample: with [size = 3] and [overlap = 2] the input "abcd"
    gives "abc", "bcd", "cd", "d".  The third window is not the last and
    has two characters, not three, and it shares one character with the
    fourth, not two. *)
Lemma chunk_data_short_windows :
  chunk_data (str "abcd") 3 2 = Ok [str "abc"; str "bcd"; str "cd"; str "d"]
  ∧ ¬ (∀ ws (k : nat) w,
         chunk_data (str "abcd") 3 2 = Ok ws →
         ws !! k = Some w → (S k < length ws)%nat → len w = 3)
  ∧ ¬ (∀ ws (k : nat) w w',
         chunk_data (str "abcd") 3 2 = Ok ws →
         ws !! k = Some w → ws !! S k = Some w' →
         len (drop (Z.to_nat (3 - 2)) w) = 2).
Proof.
  split; [reflexivity|]. split.
  - intros H.
    specialize (H [str "abc"; str "bcd"; str "cd"; str "d"] 2%nat (str "cd")
                  eq_refl eq_refl).
    simpl in H. specialize (H ltac:(lia)). discriminate H.
  - intros H.
    specialize (H [str "abc"; str "bcd"; str "cd"; str "d"] 2%nat (str "cd")
                  (str "d") eq_refl eq_refl eq_refl).
    discriminate H.
Qed.

(** C5 (as amended): for [0 <= overlap] and [size <= overlap] the chunker
    never loops; it raises ValueError (of [range]) when [size = overlap],
    and returns the empty list, with no error, when [size < overlap]. *)
Theorem chunk_data_bad_step {A} (data : list A) (size overlap : Z) :
  0 ≤ overlap → size ≤ overlap →
  chunk_data data size overlap =
    if size =? overlap then Raise ValueError else Ok [].
Proof.
  intros Hov Hle. unfold chunk_data, py_range.
  destruct (Z.eqb_spec size overlap) as [->|Hne].
  - by rewrite Z.sub_diag.
  - destruct (Z.eqb_spec (size - overlap) 0); [lia|].
    rewrite py_range_length_neg by (unfold len; lia). done.
Qed.

(** C5, witness. *)
Lemma chunk_data_bad_step_witness :
  0 ≤ 2 ∧ 2 ≤ 2 ∧
  chunk_data (str "abc") 2 2 = if 2 =? 2 then Raise ValueError else Ok [].
Proof.
  split; [lia|]. split; [lia|].
  apply (chunk_data_bad_step (str "abc") 2 2); lia.
Defined.

(** C5, counterexample: [size = 1 < overlap = 2] returns normally. *)
Lemma chunk_data_negative_step_returns :
  0 ≤ 2 ∧ 1 ≤ 2 ∧ chunk_data (str "abc") 1 2 = Ok [].
Proof. split; [lia|]. split; [lia|]. reflexivity. Qed.

(** ** Building the upsert records *)

Lemma create_source_chunk_dict_lookup {Vec} (chunked_data : list text)
    (embeddings : list Vec) (batch_id job_id : string) (i : nat) :
  create_source_chunk_dict chunked_data embeddings batch_id job_id !! i =
    match embeddings !! i, chunked_data !! i with
    | Some embedding, Some source_text =>
        Some {| id := job_id +:+ "_" +:+ batch_id +:+ "_" +:+ pretty i;
                values := embedding;
                metadata_source_text := source_text |}
    | _, _ => None
    end.
Proof.
  unfold create_source_chunk_dict.
  rewrite py_for_append_fmap, list_lookup_fmap, lookup_zip_with.
  destruct (zip embeddings chunked_data !! i) as [[e c]|] eqn:Hz.
  - rewrite lookup_seq_lt by (by eapply lookup_lt_Some).
    apply lookup_zip_Some in Hz as [-> ->]. done.
  - destruct (seq 0 (length (zip embeddings chunked_data)) !! i); simpl;
      apply lookup_zip_None in Hz as [->| ->]; try done;
      by destruct (embeddings !! i).
Qed.

Lemma create_source_chunk_dict_length {Vec} (chunked_data : list text)
    (embeddings : list Vec) (batch_id job_id : string) :
  length (create_source_chunk_dict chunked_data embeddings batch_id job_id)
  = (length chunked_data `min` length embeddings)%nat.
Proof.
  unfold create_source_chunk_dict.
  rewrite py_for_append_fmap, length_fmap, length_zip, length_seq, length_zip.
  lia.
Qed.

(** ** Reading a trace *)

Section Traces.
Context {Vec : Type}.
Implicit Types (tr d : list (event Vec)).

Lemma reports_app tr d : reports (tr ++ d) = reports tr ++ reports d.
Proof. apply omap_app. Qed.

Lemma report_outcomes_app tr d :
  report_outcomes (tr ++ d) = report_outcomes tr ++ report_outcomes d.
Proof. apply omap_app. Qed.

Lemma attempts_app tr d : attempts (tr ++ d) = attempts tr ++ attempts d.
Proof. apply omap_app. Qed.

Lemma sleeps_app tr d : sleeps (tr ++ d) = sleeps tr ++ sleeps d.
Proof. apply omap_app. Qed.

Lemma ticks_app tr d : ticks (tr ++ d) = ticks tr ++ ticks d.
Proof. apply omap_app. Qed.

Lemma upserts_app tr d : upserts (tr ++ d) = upserts tr ++ upserts d.
Proof. apply omap_app. Qed.

Lemma store_calls_app tr d :
  store_calls (tr ++ d) = store_calls tr ++ store_calls d.
Proof. apply omap_app. Qed.

Lemma chunk_calls_app tr d :
  chunk_calls (tr ++ d) = chunk_calls tr ++ chunk_calls d.
Proof. apply omap_app. Qed.

Lemma omap_loop_events {B} (f : event Vec → option B) d :
  (∀ e, loop_event e → f e = None) → Forall loop_event d → omap f d = [].
Proof.
  intros Hf. induction 1 as [|e d He _ IH]; [done|].
  simpl. by rewrite (Hf e He).
Qed.

(** The retry loop reports nothing and does not touch the store. *)
Lemma loop_events_quiet d :
  Forall loop_event d →
  reports d = [] ∧ report_outcomes d = [] ∧ upserts d = []
  ∧ store_calls d = [] ∧ chunk_calls d = [].
Proof.
  intros Hd. repeat split; apply omap_loop_events; try done;
    by intros [].
Qed.

Lemma upserts_store_calls d : store_calls d = [] → upserts d = [].
Proof.
  induction d as [|e d IH]; [done|]. destruct e; simpl; try done.
Qed.

Lemma backoff_schedule_app i (outs outs' : list (result (Response Vec))) :
  backoff_schedule i (outs ++ outs')
  = backoff_schedule i outs
    ++ backoff_schedule (i + Z.of_nat (length outs)) outs'.
Proof.
  revert i. induction outs as [|o outs IH]; intros i; simpl.
  - by rewrite Z.add_0_r.
  - rewrite IH, <- app_assoc. f_equal. f_equal. f_equal. f_equal. lia.
Qed.
End Traces.

Create Rewrite HintDb trace.
#[global] Hint Rewrite @reports_app @report_outcomes_app @attempts_app
  @sleeps_app @ticks_app @upserts_app @store_calls_app @chunk_calls_app
  : trace.

(** ** The retry loop *)

Section Loop.
Context {Vec : Type} (w : World Vec).
Implicit Types (tr d : list (event Vec)) (batch : Batch).

Lemma fail_and_return_raises batch m tr :
  fail_and_return w batch m tr = (Raise AttributeError, tr ++ [EPrint m]).
Proof. reflexivity. Qed.

(** One iteration: the call [out], then a break when it gave an
    embedding, an AttributeError out of the function at [i = 4], and the
    next iteration otherwise; a sleep of [2^i] when the attempt raised. *)
Lemma loop_body_cases batch chunked_data i response tr :
  let out := world_create w tr "text-embedding-ada-002" chunked_data in
  ∃ d,
    snd (loop_body w batch chunked_data i response tr) = tr ++ d
    ∧ Forall loop_event d
    ∧ attempts d = [out]
    ∧ ticks d = Attempt out ::
                (if attempt_raised out then [Sleep (2 ^ i)] else [])
    ∧ ((attempt_failed out = false
        ∧ ∃ r embedding,
            out = Ok r ∧ data_0_embedding r = Ok embedding
            ∧ truthy embedding = true
            ∧ fst (loop_body w batch chunked_data i response tr)
              = Ok (Break, Some r))
       ∨ (attempt_failed out = true ∧ i = 4
          ∧ fst (loop_body w batch chunked_data i response tr)
            = Raise AttributeError)
       ∨ (attempt_failed out = true ∧ i ≠ 4
          ∧ ∃ response',
              fst (loop_body w batch chunked_data i response tr)
              = Ok (Normal, response'))).
Proof.
  intros out. unfold loop_body, bind, openai_Embedding_create. fold out.
  destruct out as [r|e] eqn:Hout; [destruct (data_0_embedding r)
    as [embedding|e] eqn:Hr; [destruct (truthy embedding) eqn:Ht|]|].
  - eexists [_]. simpl. rewrite Hr, Ht. simpl.
    split_and!; [done|repeat constructor|done|done|]. left. eauto 10.
  - unfold after_try. destruct (Z.eqb_spec i 4) as [->|Hi].
    + rewrite fail_and_return_raises. simpl. rewrite <- app_assoc.
      eexists. split; [done|]. simpl. rewrite Hr, Ht. simpl.
      split_and!; [repeat constructor|done|done|]. right; left. done.
    + simpl. eexists [_]. simpl. rewrite Hr, Ht. simpl.
      split_and!; [done|repeat constructor|done|done|]. right; right.
      eauto.
  - unfold except_then_after, except_block, after_try, bind, print,
      time_sleep, emit.
    destruct (Z.eqb_spec i 4) as [->|Hi].
    + rewrite fail_and_return_raises. simpl. rewrite <- !app_assoc.
      eexists. split; [done|]. simpl. rewrite Hr. simpl.
      split_and!; [repeat constructor|done|done|]. right; left. done.
    + simpl. rewrite <- !app_assoc.
      eexists. split; [done|]. simpl. rewrite Hr. simpl.
      split_and!; [repeat constructor|done|done|]. right; right. eauto.
  - unfold except_then_after, except_block, after_try, bind, print,
      time_sleep, emit.
    destruct (Z.eqb_spec i 4) as [->|Hi].
    + rewrite fail_and_return_raises. simpl. rewrite <- !app_assoc.
      eexists. split; [done|]. simpl.
      split_and!; [repeat constructor|done|done|]. right; left. done.
    + simpl. rewrite <- !app_assoc.
      eexists. split; [done|]. simpl.
      split_and!; [repeat constructor|done|done|]. right; right. eauto.
Qed.

(** The loop over [i, .., 4]: it ends by a break at the first attempt
    that gives an embedding, or by the AttributeError of the give-up
    code after the attempt of [i = 4]; all earlier attempts failed, and
    the calls and sleeps follow the backoff schedule. *)
Lemma for_loop_spec batch chunked_data (n : nat) :
  ∀ i response tr,
    (1 ≤ n)%nat → i + Z.of_nat n = 5 →
    ∃ d,
      snd (for_loop w batch chunked_data (range_from i n) response tr)
      = tr ++ d
      ∧ Forall loop_event d
      ∧ ticks d = backoff_schedule i (attempts d)
      ∧ ((∃ fails r embedding,
            fst (for_loop w batch chunked_data (range_from i n) response tr)
            = Ok (Normal, Some r)
            ∧ attempts d = fails ++ [Ok r]
            ∧ data_0_embedding r = Ok embedding
            ∧ truthy embedding = true
            ∧ forallb attempt_failed fails = true
            ∧ (length fails < n)%nat)
         ∨ (fst (for_loop w batch chunked_data (range_from i n) response tr)
            = Raise AttributeError
            ∧ length (attempts d) = n
            ∧ forallb attempt_failed (attempts d) = true)).
Proof.
  induction n as [|n IH]; intros i response tr Hn Hi; [lia|].
  simpl range_from. simpl for_loop. unfold bind.
  destruct (loop_body_cases batch chunked_data i response tr)
    as (d0 & Hd0 & Hev & Hatt & Hticks & Hcase).
  destruct (loop_body w batch chunked_data i response tr) as [res tr0].
  simpl in Hd0, Hcase. subst tr0.
  destruct Hcase as [(Hok & r & embedding & Hout & Hr & Ht & ->)
                    |[(Hfail & -> & ->)|(Hfail & Hne & response' & ->)]].
  - exists d0. simpl. split_and!; [done|done| |].
    + rewrite Hticks, Hatt. simpl. by rewrite app_nil_r.
    + left. exists [], r, embedding. rewrite Hatt, Hout.
      split_and!; [done|done|done|done|done|simpl; lia].
  - exists d0. simpl. split_and!; [done|done| |].
    + rewrite Hticks, Hatt. simpl. by rewrite app_nil_r.
    + right. rewrite Hatt. simpl. rewrite Hfail.
      split_and!; [done|lia|done].
  - simpl.
    destruct (IH (i + 1) response' (tr ++ d0) ltac:(lia) ltac:(lia))
      as (d & Hd & Hev' & Hticks' & Hcase).
    exists (d0 ++ d). rewrite Hd, <- app_assoc.
    split_and!; [done|by apply Forall_app| |].
    + autorewrite with trace. rewrite Hticks, Hticks', Hatt. done.
    + autorewrite with trace. rewrite Hatt.
      destruct Hcase as [(fails & r & embedding & -> & -> & Hr & Ht & Hf & Hl)
                        |(-> & Hl & Hf)].
      * left. exists (world_create w tr "text-embedding-ada-002"
                        chunked_data :: fails), r, embedding.
        simpl. rewrite Hfail, Hf.
        split_and!; [done|done|done|done|done|lia].
      * right. simpl. rewrite Hfail, Hf. split_and!; [done|lia|done].
Qed.
End Loop.

(** ** The vector-store write and the embedding of a batch *)

Section Embed.
Context {Vec : Type} (w : World Vec).
Implicit Types (tr d : list (event Vec)) (batch : Batch).

Lemma write_embeddings_to_vector_db_spec (embeddings : list Vec)
    (chunked_data : list text) vdm (batch_id job_id : string) tr :
  ∃ d,
    snd (write_embeddings_to_vector_db w embeddings chunked_data vdm
           batch_id job_id tr) = tr ++ d
    ∧ store_facts w embeddings chunked_data vdm batch_id job_id
        (fst (write_embeddings_to_vector_db w embeddings chunked_data vdm
                batch_id job_id tr)) d.
Proof.
  unfold write_embeddings_to_vector_db, store_facts.
  destruct (String.eqb (vector_db_type vdm) "PINECONE") eqn:Htype.
  - unfold write_embeddings_to_pinecone, bind, pinecone_init,
      pinecone_Index, index_upsert, print, emit, ret.
    destruct (world_pinecone_init w tr _ _) as [[]|e] eqn:Hinit.
    + destruct (world_pinecone_Index w _ _) as [index|e] eqn:Hindex.
      * destruct (Index_bool index) eqn:Hbool; simpl.
        -- destruct (world_upsert w _ _) as [r|e] eqn:Hup; simpl;
             rewrite <- !app_assoc; (eexists; split; [done|]);
             unfold upsert_acknowledged; simpl; rewrite ?orb_false_r;
             (split_and!; try done;
               [intros Hmiss; specialize (Hmiss (tr ++ [EPinecone_init
                  (vdb_api_key vdm) (environment vdm) (Ok ())]));
                rewrite Hindex in Hmiss; congruence
               |by intros c ->%list_elem_of_singleton]).
        -- rewrite <- !app_assoc. eexists; split; [done|]. simpl.
           split_and!; try done. by intros c ?%not_elem_of_nil.
      * simpl. rewrite <- !app_assoc. eexists; split; [done|]. simpl.
        split_and!; try done. by intros c ?%not_elem_of_nil.
    + simpl. eexists; split; [done|]. simpl.
      split_and!; try done. by intros c ?%not_elem_of_nil.
  - unfold bind, print, emit, ret. simpl. eexists; split; [done|]. simpl.
    split_and!; try done. by intros c ?%not_elem_of_nil.
Qed.

Lemma range_5 : py_range 0 5 1 = Ok (range_from 0 5).
Proof. reflexivity. Qed.

Lemma attempt_failed_usable (r : Response Vec) embedding :
  data_0_embedding r = Ok embedding → truthy embedding = true →
  attempt_failed (Ok r) = false.
Proof. intros Hr Ht. simpl. by rewrite Hr, Ht. Qed.

Lemma embed_openai_batch_spec batch tr :
  ∃ d,
    snd (embed_openai_batch w batch tr) = tr ++ d
    ∧ embed_facts w batch (fst (embed_openai_batch w batch tr)) d.
Proof.
  unfold embed_openai_batch, embed_facts, bind, emit, lift.
  rewrite range_5.
  destruct (chunk_data _ _ _) as [chunked_data|e] eqn:Hchunks.
  2:{ rewrite <- app_assoc. eexists; split; [done|]. simpl.
      split_and!; try done.
      - lia.
      - by intros [|??] ? ?.
      - eauto.
      - by intros c ?%not_elem_of_nil. }
  set (tr0 := (tr ++ _) ++ _).
  destruct (for_loop_spec w batch chunked_data 5 0 None tr0
              ltac:(lia) ltac:(lia))
    as (dl & Hdl & Hev & Hticks & Hcase).
  destruct (loop_events_quiet dl Hev) as (Hq1 & Hq2 & Hq3 & Hq4 & Hq5).
  destruct (for_loop w batch chunked_data (range_from 0 5) None tr0)
    as [res tr1].
  simpl in Hdl, Hcase. subst tr1.
  destruct Hcase as [(fails & r & embedding & -> & Hatt & Hr & Ht & Hf & Hl)
                    |(-> & Hl & Hf)].
  - simpl. rewrite Hr.
    destruct (write_embeddings_to_vector_db_spec embedding chunked_data
                (vector_db_metadata batch) (batch_id batch) (job_id batch)
                (tr0 ++ dl))
      as (ds & Hds & Hs1 & Hs2 & Hs3 & Hs4 & Hs5 & Hres & Hty & Hmiss & Hrec).
    destruct (write_embeddings_to_vector_db w embedding chunked_data
                (vector_db_metadata batch) (batch_id batch) (job_id batch)
                (tr0 ++ dl)) as [res tr1].
    simpl in Hds, Hres. subst tr1 tr0. rewrite <- !app_assoc.
    eexists; split; [done|].
    unfold upsert_acknowledged in *. autorewrite with trace. simpl.
    rewrite Hq1, Hq2, Hq3, Hq4, Hs1, Hs2, Hs3, Hs4, Hatt, !app_nil_r. simpl.
    split_and!; try done.
    + by rewrite <- Hatt.
    + rewrite length_app. simpl. lia.
    + by intros fails' out [-> _]%app_inj_tail.
    + intros Hall. rewrite forallb_app in Hall.
      apply andb_true_iff in Hall as [_ Hlast]. cbn [forallb] in Hlast.
      by rewrite (attempt_failed_usable r embedding Hr Ht) in Hlast.
    + intros c Hc. exists chunked_data, r, embedding.
      rewrite last_snoc. auto.
  - simpl. subst tr0. rewrite <- !app_assoc. eexists; split; [done|].
    unfold upsert_acknowledged. autorewrite with trace. simpl.
    rewrite Hq1, Hq2, Hq3, Hq4. simpl.
    split_and!; try done.
    + lia.
    + intros fails out Hfo. rewrite Hfo, forallb_app in Hf.
      by apply andb_true_iff in Hf as [? _].
    + eauto.
    + by intros c ?%not_elem_of_nil.
Qed.
End Embed.

(** ** [process_batch] *)

Section ProcessBatch.
Context {Vec : Type} (w : World Vec).
Implicit Types (tr d : list (event Vec)) (batch : Batch).

Lemma omap_report_events {B} (f : event Vec → option B) d :
  (∀ e, report_event e → f e = None) → Forall report_event d →
  omap f d = [].
Proof.
  intros Hf. induction 1 as [|e d He _ IH]; [done|].
  simpl. by rewrite (Hf e He).
Qed.

(** The reporting makes no provider call and no store call. *)
Lemma report_events_quiet d :
  Forall report_event d →
  attempts d = [] ∧ ticks d = [] ∧ upserts d = [] ∧ store_calls d = []
  ∧ chunk_calls d = [].
Proof.
  intros Hd. repeat split; apply omap_report_events; try done;
    by intros [].
Qed.

(** A batch of type OPEN_AI: the events of [embed_openai_batch], then the
    report of the verdict; when that report raises, inside the [try], a
    second report, of FAILED, follows. *)
Lemma process_batch_open_ai batch :
  String.eqb (embeddings_type (embeddings_metadata batch)) "OPEN_AI" = true →
  ∃ d res tail,
    embed_facts w batch res d
    ∧ snd (run w batch) = d ++ tail
    ∧ Forall report_event tail
    ∧ ((reports tail = [verdict d]
        ∧ (reports_delivered tail = true → fst (run w batch) = Ok tt))
       ∨ (reports tail = [verdict d; BatchStatus.FAILED]
          ∧ reports_delivered tail = false
          ∧ ∃ v, res = Ok v)).
Proof.
  intros Htype. unfold run, process_batch. rewrite Htype.
  unfold try_except, bind.
  destruct (embed_openai_batch_spec w batch []) as (d & Hd & Hfacts).
  destruct (embed_openai_batch w batch []) as [res tr1].
  simpl in Hd, Hfacts. subst tr1.
  exists d, res.
  pose proof Hfacts as (_ & _ & _ & _ & _ & Hres & _).
  unfold verdict, update_job_status, print, emit, lift.
  destruct res as [v|e].
  - rewrite <- Hres.
    destruct (py_bool v); simpl;
      (destruct (world_put w d _ _ _) as [[]|e] eqn:Hput;
       [|destruct (world_put w (_ ++ _) _ _ _) as [[]|e'] eqn:Hput'];
       rewrite <- ?app_assoc; eexists; (split; [done|]);
       (split; [done|]); (split; [repeat constructor|]);
       unfold reports_delivered; simpl; naive_solver).
  - rewrite Hres. simpl.
    destruct (world_put w _ _ _ _) as [[]|e'] eqn:Hput;
      rewrite <- ?app_assoc; eexists; (split; [done|]);
      (split; [done|]); (split; [repeat constructor|]);
      unfold reports_delivered; simpl; naive_solver.
Qed.

(** A batch of any other type: a message and the report of FAILED. *)
Lemma process_batch_unsupported batch :
  String.eqb (embeddings_type (embeddings_metadata batch)) "OPEN_AI" = false →
  let url := base_request_url +:+ "/jobs/" +:+ job_id batch in
  let msg :=
    EPrint (Unsupported_embeddings_type
              (embeddings_type (embeddings_metadata batch))) in
  run w batch =
    (world_put w [msg] url (batch_id batch) BatchStatus.FAILED,
     [msg; EPut url (batch_id batch) BatchStatus.FAILED
             (world_put w [msg] url (batch_id batch) BatchStatus.FAILED)]).
Proof.
  intros Htype. unfold run, process_batch. rewrite Htype. reflexivity.
Qed.

Lemma reports_delivered_app tr d :
  reports_delivered (tr ++ d) = reports_delivered tr && reports_delivered d.
Proof.
  unfold reports_delivered. by rewrite report_outcomes_app, forallb_app.
Qed.

Lemma upsert_acknowledged_iff tr :
  upsert_acknowledged tr = true ↔
  ∃ vectors r, (vectors, Ok r) ∈ upserts tr ∧ UpsertResponse_bool r = true.
Proof.
  unfold upsert_acknowledged. rewrite existsb_exists. split.
  - intros ([vectors [r|e]] & Hin & Hr); [|done].
    exists vectors, r. by rewrite list_elem_of_In.
  - intros (vectors & r & Hin & Hr). exists (vectors, Ok r).
    by rewrite <- list_elem_of_In.
Qed.

(** The whole run, whatever the batch: the first report is the verdict,
    and a second one, of FAILED, follows only when the first raised. *)
Lemma process_batch_reports batch :
  let tr := snd (run w batch) in
  (reports tr = [verdict tr]
   ∧ (reports_delivered tr = true → fst (run w batch) = Ok tt))
  ∨ (reports tr = [verdict tr; BatchStatus.FAILED]
     ∧ reports_delivered tr = false).
Proof.
  destruct (String.eqb (embeddings_type (embeddings_metadata batch))
              "OPEN_AI") eqn:Htype.
  - destruct (process_batch_open_ai batch Htype)
      as (d & res & tail & Hfacts & -> & Htail & Hcase).
    destruct Hfacts as (Hr & Hro & _).
    destruct (report_events_quiet tail Htail) as (_ & _ & Hup & _).
    simpl. rewrite reports_delivered_app, reports_app, Hr.
    assert (verdict (d ++ tail) = verdict d) as ->.
    { unfold verdict, upsert_acknowledged.
      by rewrite upserts_app, Hup, app_nil_r. }
    assert (reports_delivered d = true) as ->.
    { unfold reports_delivered. by rewrite Hro. }
    simpl. destruct Hcase as [[-> Hok]|(-> & -> & _)]; [left|right]; done.
  - rewrite (process_batch_unsupported batch Htype). simpl.
    unfold reports_delivered. simpl.
    destruct (world_put w _ _ _ _) as [[]|e]; simpl; left; done.
Qed.
End ProcessBatch.

(** ** The retry policy *)

(** C2 (as amended): for a batch of type OPEN_AI the worker calls the
    provider at most 5 times, every call but the last having failed; the
    provider calls and the sleeps of the run are, in this order, attempt
    [i] followed, when the attempt raised (the call itself or the
    subscripts on its response), by a sleep of [2^i], for [i = 0, 1, ..]:
    1, 2, 4, 8 and 16, the last one before the batch is given up.  An
    attempt whose response holds an empty embedding is followed by no
    sleep. *)
Theorem embedding_retry_backoff {Vec} (w : World Vec) (batch : Batch) :
  String.eqb (embeddings_type (embeddings_metadata batch)) "OPEN_AI" = true →
  let tr := snd (run w batch) in
  (length (attempts tr) ≤ 5)%nat
  ∧ (∀ fails out, attempts tr = fails ++ [out] →
       forallb attempt_failed fails = true)
  ∧ ticks tr = backoff_schedule 0 (attempts tr).
Proof.
  intros Htype.
  destruct (process_batch_open_ai w batch Htype)
    as (d & res & tail & Hfacts & -> & Htail & _).
  destruct Hfacts as (_ & _ & Hticks & Hle & Hfails & _).
  destruct (report_events_quiet tail Htail) as (Ha & Ht & _).
  simpl. by rewrite attempts_app, ticks_app, Ha, Ht, !app_nil_r.
Qed.

(** C2, witness: the provider raises four times and then answers. *)
Lemma embedding_retry_backoff_witness :
  let w := a_world (provider_raises 4) true true true in
  let batch := a_batch "OPEN_AI" "PINECONE" 4 1 in
  String.eqb (embeddings_type (embeddings_metadata batch)) "OPEN_AI" = true
  ∧ (length (attempts (snd (run w batch))) ≤ 5)%nat
  ∧ (∀ fails out, attempts (snd (run w batch)) = fails ++ [out] →
       forallb attempt_failed fails = true)
  ∧ ticks (snd (run w batch))
    = backoff_schedule 0 (attempts (snd (run w batch))).
Proof.
  split; [reflexivity|].
  apply (embedding_retry_backoff (a_world (provider_raises 4) true true true)
           (a_batch "OPEN_AI" "PINECONE" 4 1)).
  reflexivity.
Defined.

(** C2, counterexample: the first response holds an empty embedding, the
    worker calls the provider again, and no sleep lies between the two
    calls. *)
Lemma retry_without_sleep :
  let w := a_world provider_empty_once true true true in
  let batch := a_batch "OPEN_AI" "PINECONE" 4 1 in
  let tr := snd (run w batch) in
  String.eqb (embeddings_type (embeddings_metadata batch)) "OPEN_AI" = true
  ∧ ticks tr
    = [Attempt (Ok empty_response);
       Attempt (Ok (good_response [str "abcd"; str "defg"; str "gh"]))]
  ∧ attempt_failed (Ok empty_response) = true
  ∧ sleeps tr = []
  ∧ ¬ (∀ (i : nat) out,
         attempts tr !! i = Some out → attempt_failed out = true →
         (S i < length (attempts tr))%nat →
         Sleep (2 ^ Z.of_nat i) ∈ ticks tr).
Proof.
  split_and!; try reflexivity.
  intros H. specialize (H 0%nat (Ok empty_response) eq_refl eq_refl).
  vm_compute in H. specialize (H ltac:(repeat constructor)).
  repeat (apply elem_of_cons in H as [H|H]; [discriminate H|]).
  by apply not_elem_of_nil in H.
Qed.

(** C3: when all five attempts fail, the worker reports the batch FAILED,
    once, and makes no call to the vector store, [index.upsert]
    included. *)
Theorem embedding_retries_exhausted {Vec} (w : World Vec) (batch : Batch) :
  String.eqb (embeddings_type (embeddings_metadata batch)) "OPEN_AI" = true →
  let tr := snd (run w batch) in
  length (attempts tr) = 5%nat →
  forallb attempt_failed (attempts tr) = true →
  reports tr = [BatchStatus.FAILED] ∧ upserts tr = [] ∧ store_calls tr = [].
Proof.
  intros Htype.
  destruct (process_batch_open_ai w batch Htype)
    as (d & res & tail & Hfacts & -> & Htail & Hcase).
  destruct Hfacts as (Hr & _ & _ & _ & _ & _ & Hall & _).
  destruct (report_events_quiet tail Htail) as (Ha & _ & Hu & Hs & _).
  simpl. rewrite attempts_app, reports_app, upserts_app, store_calls_app,
    Ha, Hr, Hu, Hs, !app_nil_r.
  intros _ Hfailed. destruct (Hall Hfailed) as [Hstore [e ->]].
  pose proof (upserts_store_calls d Hstore) as Hups.
  assert (verdict d = BatchStatus.FAILED) as Hv.
  { unfold verdict, upsert_acknowledged. by rewrite Hups. }
  rewrite Hv in Hcase.
  destruct Hcase as [[-> _]|(_ & _ & v & ?)]; done.
Qed.

(** C3, witness: the provider raises on every call. *)
Lemma embedding_retries_exhausted_witness :
  let w := a_world provider_down true true true in
  let batch := a_batch "OPEN_AI" "PINECONE" 4 1 in
  let tr := snd (run w batch) in
  String.eqb (embeddings_type (embeddings_metadata batch)) "OPEN_AI" = true
  ∧ length (attempts tr) = 5%nat
  ∧ forallb attempt_failed (attempts tr) = true
  ∧ reports tr = [BatchStatus.FAILED] ∧ upserts tr = [] ∧ store_calls tr = [].
Proof.
  split; [reflexivity|]. split; [reflexivity|]. split; [reflexivity|].
  apply (embedding_retries_exhausted (a_world provider_down true true true)
           (a_batch "OPEN_AI" "PINECONE" 4 1)); reflexivity.
Defined.

(** ** The upsert records *)

(** C6 (as amended): the records of every [index.upsert] call are built
    from the chunks of the batch and from the embeddings of the last,
    successful, attempt, paired by position: record [i] exists iff both
    chunk [i] and embedding [i] do, its identifier is
    [{job_id}_{batch_id}_{i}], its values are embedding [i] and its
    metadata carries chunk [i].  There are [min(#chunks, #embeddings)]
    records, one per chunk when the two sequences have the same length; a
    mismatch of the lengths is not detected. *)
Theorem upsert_records {Vec} (w : World Vec) (batch : Batch) vectors out :
  (vectors, out) ∈ upserts (snd (run w batch)) →
  ∃ chunked_data r embeddings,
    chunk_data (source_data batch) (chunk_size (embeddings_metadata batch))
               (chunk_overlap (embeddings_metadata batch)) = Ok chunked_data
    ∧ last (attempts (snd (run w batch))) = Some (Ok r)
    ∧ data_0_embedding r = Ok embeddings
    ∧ length vectors = (length chunked_data `min` length embeddings)%nat
    ∧ (length embeddings = length chunked_data →
       length vectors = length chunked_data)
    ∧ ∀ i : nat,
        vectors !! i =
          match embeddings !! i, chunked_data !! i with
          | Some embedding, Some source_text =>
              Some {| id := job_id batch +:+ "_" +:+ batch_id batch +:+ "_"
                            +:+ pretty i;
                      values := embedding;
                      metadata_source_text := source_text |}
          | _, _ => None
          end.
Proof.
  destruct (String.eqb (embeddings_type (embeddings_metadata batch))
              "OPEN_AI") eqn:Htype.
  - destruct (process_batch_open_ai w batch Htype)
      as (d & res & tail & Hfacts & -> & Htail & _).
    destruct Hfacts as (_ & _ & _ & _ & _ & _ & _ & _ & _ & Hrec).
    destruct (report_events_quiet tail Htail) as (Ha & _ & Hu & _).
    rewrite upserts_app, attempts_app, Ha, Hu, !app_nil_r.
    intros Hin.
    destruct (Hrec _ Hin) as (chunked_data & r & embeddings & Hc & Hl & Hr & Hv).
    simpl in Hv. subst vectors. exists chunked_data, r, embeddings.
    split_and!; try done.
    + apply create_source_chunk_dict_length.
    + intros Hlen. rewrite create_source_chunk_dict_length.
      unfold text in *. lia.
    + intros i. apply create_source_chunk_dict_lookup.
  - rewrite (process_batch_unsupported w batch Htype). simpl.
    by intros ?%not_elem_of_nil.
Qed.

(** C6, witness: three chunks and three embeddings. *)
Lemma upsert_records_witness :
  let w := a_world provider_up true true true in
  let batch := a_batch "OPEN_AI" "PINECONE" 4 1 in
  let vectors :=
    create_source_chunk_dict [str "abcd"; str "defg"; str "gh"] [10; 11; 12]
      "7-0" "7" in
  (vectors, Ok {| UpsertResponse_bool := true |}) ∈ upserts (snd (run w batch))
  ∧ ∃ chunked_data r embeddings,
      chunk_data (source_data batch) (chunk_size (embeddings_metadata batch))
                 (chunk_overlap (embeddings_metadata batch)) = Ok chunked_data
      ∧ last (attempts (snd (run w batch))) = Some (Ok r)
      ∧ data_0_embedding r = Ok embeddings
      ∧ length vectors = (length chunked_data `min` length embeddings)%nat
      ∧ (length embeddings = length chunked_data →
         length vectors = length chunked_data)
      ∧ ∀ i : nat,
          vectors !! i =
            match embeddings !! i, chunked_data !! i with
            | Some embedding, Some source_text =>
                Some {| id := job_id batch +:+ "_" +:+ batch_id batch +:+ "_"
                              +:+ pretty i;
                        values := embedding;
                        metadata_source_text := source_text |}
            | _, _ => None
            end.
Proof.
  split.
  - vm_compute. apply list_elem_of_here.
  - apply (upsert_records (a_world provider_up true true true)
             (a_batch "OPEN_AI" "PINECONE" 4 1)
             (create_source_chunk_dict [str "abcd"; str "defg"; str "gh"]
                [10; 11; 12] "7-0" "7")
             (Ok {| UpsertResponse_bool := true |})).
    vm_compute. apply list_elem_of_here.
Defined.

(** C6, counterexample: the provider returns one embedding for three
    chunks; the worker upserts a single record, drops two chunks, and
    reports the batch COMPLETED. *)
Lemma short_embeddings_truncate :
  let w := a_world provider_short true true true in
  let batch := a_batch "OPEN_AI" "PINECONE" 4 1 in
  chunk_data (source_data batch) (chunk_size (embeddings_metadata batch))
             (chunk_overlap (embeddings_metadata batch))
  = Ok [str "abcd"; str "defg"; str "gh"]
  ∧ attempts (snd (run w batch)) = [Ok {| data_0_embedding := Ok [10] |}]
  ∧ upserts (snd (run w batch))
    = [([{| id := "7_7-0_0"; values := 10;
            metadata_source_text := str "abcd" |}],
        Ok {| UpsertResponse_bool := true |})]
  ∧ fst (run w batch) = Ok tt
  ∧ reports (snd (run w batch)) = [BatchStatus.COMPLETED]
  ∧ ¬ (∀ vectors out chunked_data,
         (vectors, out) ∈ upserts (snd (run w batch)) →
         chunk_data (source_data batch)
                    (chunk_size (embeddings_metadata batch))
                    (chunk_overlap (embeddings_metadata batch))
         = Ok chunked_data →
         length vectors = length chunked_data).
Proof.
  split_and!; try reflexivity.
  intros H.
  specialize (H [{| id := "7_7-0_0"; values := 10;
                    metadata_source_text := str "abcd" |}]
                (Ok {| UpsertResponse_bool := true |})
                [str "abcd"; str "defg"; str "gh"]).
  discriminate H; [vm_compute; apply list_elem_of_here|reflexivity].
Qed.

(** ** The reports of [process_batch] *)

(** C7: when the vector store type is not the recognized one, PINECONE,
    or the target index is missing, [index.upsert] is never called and
    every report is FAILED: one report, or two when the first raised. *)
Theorem unknown_store_or_missing_index {Vec} (w : World Vec) (batch : Batch) :
  String.eqb (vector_db_type (vector_db_metadata batch)) "PINECONE" = false
  ∨ index_missing w (index_name (vector_db_metadata batch)) →
  let tr := snd (run w batch) in
  upserts tr = []
  ∧ (reports tr = [BatchStatus.FAILED]
     ∨ reports tr = [BatchStatus.FAILED; BatchStatus.FAILED])
  ∧ (reports_delivered tr = true → reports tr = [BatchStatus.FAILED]).
Proof.
  intros Hstore tr.
  assert (upserts tr = []) as Hups.
  { subst tr.
    destruct (String.eqb (embeddings_type (embeddings_metadata batch))
                "OPEN_AI") eqn:Htype.
    - destruct (process_batch_open_ai w batch Htype)
        as (d & res & tail & Hfacts & -> & Htail & _).
      destruct Hfacts as (_ & _ & _ & _ & _ & _ & _ & Hty & Hmiss & _).
      destruct (report_events_quiet tail Htail) as (_ & _ & Hu & _).
      simpl. rewrite upserts_app, Hu, app_nil_r.
      destruct Hstore as [H|H]; [|by apply Hmiss].
      by apply upserts_store_calls, Hty.
    - by rewrite (process_batch_unsupported w batch Htype). }
  assert (verdict tr = BatchStatus.FAILED) as Hv.
  { unfold verdict, upsert_acknowledged. by rewrite Hups. }
  split; [done|].
  destruct (process_batch_reports w batch) as [[Hr _]|[Hr Hd]];
    fold tr in Hr; rewrite Hv in Hr; rewrite Hr.
  - auto.
  - fold tr in Hd. rewrite Hd. split; [auto|done].
Qed.

(** C7, witness: the index is missing. *)
Lemma unknown_store_or_missing_index_witness :
  let w := a_world provider_up false true true in
  let batch := a_batch "OPEN_AI" "PINECONE" 4 1 in
  (String.eqb (vector_db_type (vector_db_metadata batch)) "PINECONE" = false
   ∨ index_missing w (index_name (vector_db_metadata batch)))
  ∧ upserts (snd (run w batch)) = []
  ∧ (reports (snd (run w batch)) = [BatchStatus.FAILED]
     ∨ reports (snd (run w batch)) = [BatchStatus.FAILED; BatchStatus.FAILED])
  ∧ (reports_delivered (snd (run w batch)) = true →
     reports (snd (run w batch)) = [BatchStatus.FAILED]).
Proof.
  split.
  - right. intros tr. reflexivity.
  - apply (unknown_store_or_missing_index (a_world provider_up false true true)
             (a_batch "OPEN_AI" "PINECONE" 4 1)).
    right. intros tr. reflexivity.
Defined.

(** C8: for a batch whose embeddings type is not the recognized one,
    OPEN_AI, the run is a message and the report of FAILED, nothing else:
    no provider call, no chunking, no call to the vector store. *)
Theorem unsupported_embeddings_type {Vec} (w : World Vec) (batch : Batch) :
  String.eqb (embeddings_type (embeddings_metadata batch)) "OPEN_AI" = false →
  let tr := snd (run w batch) in
  (∃ out,
     tr = [EPrint (Unsupported_embeddings_type
                     (embeddings_type (embeddings_metadata batch)));
           EPut (base_request_url +:+ "/jobs/" +:+ job_id batch)
                (batch_id batch) BatchStatus.FAILED out])
  ∧ reports tr = [BatchStatus.FAILED]
  ∧ attempts tr = [] ∧ chunk_calls tr = [] ∧ store_calls tr = []
  ∧ upserts tr = [].
Proof.
  intros Htype. rewrite (process_batch_unsupported w batch Htype). simpl.
  split_and!; try done. by eexists.
Qed.

(** C8, witness. *)
Lemma unsupported_embeddings_type_witness :
  let w := a_world provider_up true true true in
  let batch := a_batch "COHERE" "PINECONE" 4 1 in
  let tr := snd (run w batch) in
  String.eqb (embeddings_type (embeddings_metadata batch)) "OPEN_AI" = false
  ∧ (∃ out,
       tr = [EPrint (Unsupported_embeddings_type
                       (embeddings_type (embeddings_metadata batch)));
             EPut (base_request_url +:+ "/jobs/" +:+ job_id batch)
                  (batch_id batch) BatchStatus.FAILED out])
  ∧ reports tr = [BatchStatus.FAILED]
  ∧ attempts tr = [] ∧ chunk_calls tr = [] ∧ store_calls tr = []
  ∧ upserts tr = [].
Proof.
  split; [reflexivity|].
  apply (unsupported_embeddings_type (a_world provider_up true true true)
           (a_batch "COHERE" "PINECONE" 4 1)).
  reflexivity.
Defined.

(** C9: for a batch of type OPEN_AI, when no status report raises, a run
    of [process_batch] ends normally and makes exactly one status report,
    of COMPLETED or of FAILED. *)
Theorem one_report_per_batch {Vec} (w : World Vec) (batch : Batch) :
  String.eqb (embeddings_type (embeddings_metadata batch)) "OPEN_AI" = true →
  let tr := snd (run w batch) in
  reports_delivered tr = true →
  fst (run w batch) = Ok tt
  ∧ (reports tr = [BatchStatus.COMPLETED] ∨ reports tr = [BatchStatus.FAILED]).
Proof.
  intros _ tr Hdel.
  destruct (process_batch_reports w batch) as [[Hr Hok]|[_ Hd]];
    [|fold tr in Hd; congruence].
  fold tr in Hr, Hok. split; [by apply Hok|].
  rewrite Hr. unfold verdict. destruct (upsert_acknowledged tr); auto.
Qed.

(** C9, witness: the provider is down, and the one report is FAILED. *)
Lemma one_report_per_batch_witness :
  let w := a_world provider_down true true true in
  let batch := a_batch "OPEN_AI" "PINECONE" 4 1 in
  String.eqb (embeddings_type (embeddings_metadata batch)) "OPEN_AI" = true
  ∧ reports_delivered (snd (run w batch)) = true
  ∧ fst (run w batch) = Ok tt
  ∧ (reports (snd (run w batch)) = [BatchStatus.COMPLETED]
     ∨ reports (snd (run w batch)) = [BatchStatus.FAILED]).
Proof.
  split; [reflexivity|]. split; [reflexivity|].
  apply (one_report_per_batch (a_world provider_down true true true)
           (a_batch "OPEN_AI" "PINECONE" 4 1)); reflexivity.
Defined.

(** C10: [process_batch] reports COMPLETED iff [index.upsert] was called
    and returned a truthy value; in every other outcome all its reports
    are FAILED, and there is at least one. *)
Theorem completed_iff_upsert_acknowledged {Vec} (w : World Vec)
    (batch : Batch) :
  let tr := snd (run w batch) in
  (BatchStatus.COMPLETED ∈ reports tr ↔
   ∃ vectors r, (vectors, Ok r) ∈ upserts tr ∧ UpsertResponse_bool r = true)
  ∧ (BatchStatus.COMPLETED ∉ reports tr →
     reports tr = [BatchStatus.FAILED]
     ∨ reports tr = [BatchStatus.FAILED; BatchStatus.FAILED]).
Proof.
  intros tr. rewrite <- upsert_acknowledged_iff.
  destruct (process_batch_reports w batch) as [[Hr _]|[Hr _]];
    fold tr in Hr; rewrite Hr; unfold verdict;
    destruct (upsert_acknowledged tr); split;
    rewrite ?elem_of_cons, ?elem_of_nil; intuition (auto; congruence).
Qed.

(** ** The status aggregator *)

(** The four scenarios of the transition rule: one batch of one completed,
    one of two completed, the second of two completed after a first that
    did not succeed, one batch of one failed. *)
Example update_status_scenarios :
  let job total processed succeeded : Aggregator.Store :=
    {| Aggregator.jobs :=
         {[ "j" := {| Aggregator.webhook_url := "";
                      Aggregator.total_batches := total;
                      Aggregator.batches_processed := processed;
                      Aggregator.batches_succeeded := succeeded;
                      Aggregator.status := JobStatus.NOT_STARTED |} ]};
       Aggregator.batches := {[ "b" := BatchStatus.NOT_STARTED ]} |} in
  (Aggregator.update_status (job 1 0 0) "j" "b" BatchStatus.COMPLETED).2
  = inr Aggregator.fully_complete
  ∧ (Aggregator.update_status (job 2 0 0) "j" "b" BatchStatus.COMPLETED).2
    = inr Aggregator.more_work_remains
  ∧ (Aggregator.update_status (job 2 1 0) "j" "b" BatchStatus.COMPLETED).2
    = inr Aggregator.partially_complete
  ∧ (Aggregator.update_status (job 1 0 0) "j" "b" BatchStatus.FAILED).2
    = inr Aggregator.job_failed.
Proof. vm_compute. done. Qed.

(** One status report, whatever it is and whichever job and batch it
    names, leaves a FAILED job FAILED: a refused report changes nothing, a
    report for another job writes another key, and a report for this job
    commits FAILED again. *)
Lemma update_status_keeps_failed (st : Aggregator.Store)
    (job_id job_id' batch_id : string) (s : BatchStatus.t) :
  Aggregator.job_status st job_id = Some JobStatus.FAILED →
  Aggregator.job_status (Aggregator.update_status st job_id' batch_id s).1
    job_id
  = Some JobStatus.FAILED.
Proof.
  intros Hfailed. unfold Aggregator.update_status.
  destruct (Aggregator.jobs st !! job_id') as [job|] eqn:Hjob; [|done].
  destruct (Aggregator.batches st !! batch_id) as [bs|]; [|done].
  destruct (Aggregator.terminal bs); [done|].
  destruct (decide (job_id' = job_id)) as [->|Hne].
  - assert (Aggregator.status job = JobStatus.FAILED) as Hst.
    { unfold Aggregator.job_status in Hfailed. rewrite Hjob in Hfailed.
      simpl in Hfailed. congruence. }
    rewrite Hst.
    destruct (BatchStatus.eqb s BatchStatus.FAILED);
      unfold Aggregator.job_status; simpl; by rewrite lookup_insert_eq.
  - unfold Aggregator.job_status in *.
    repeat case_match; simpl; by rewrite lookup_insert_ne.
Qed.

(** C1: once a job's status is FAILED, it is FAILED after every sequence
    of later status reports, for whatever batches and with whatever
    statuses, accepted or refused; in particular after a COMPLETED report
    for another batch of the same job. *)
Theorem failed_job_stays_failed (st : Aggregator.Store) (job_id : string)
    (updates : list (string * string * BatchStatus.t)) :
  Aggregator.job_status st job_id = Some JobStatus.FAILED →
  Aggregator.job_status (Aggregator.run_updates st updates) job_id
  = Some JobStatus.FAILED.
Proof.
  revert st. induction updates as [|[[j b] s] updates IH]; intros st Hfailed.
  - done.
  - apply IH. by apply update_status_keeps_failed.
Qed.

(** A job of two batches: the first reports FAILED, which sets the job
    to FAILED; the second then reports COMPLETED, is accepted and counted,
    and the job is still FAILED. *)
Lemma failed_job_stays_failed_witness :
  let first :=
    Aggregator.update_status Aggregator.two_batches "j" "j-0"
      BatchStatus.FAILED in
  let second :=
    Aggregator.update_status first.1 "j" "j-1" BatchStatus.COMPLETED in
  Aggregator.job_status first.1 "j" = Some JobStatus.FAILED
  ∧ second.2 = inr Aggregator.job_failed
  ∧ Aggregator.batches_processed <$> Aggregator.jobs second.1 !! "j" = Some 2
  ∧ Aggregator.job_status
      (Aggregator.run_updates first.1 [("j", "j-1", BatchStatus.COMPLETED)])
      "j"
    = Some JobStatus.FAILED.
Proof.
  split; [reflexivity|]. split; [reflexivity|]. split; [reflexivity|].
  apply (failed_job_stays_failed
           (Aggregator.update_status Aggregator.two_batches "j" "j-0"
              BatchStatus.FAILED).1
           "j" [("j", "j-1", BatchStatus.COMPLETED)]).
  reflexivity.
Defined.

(** ** More on the chunker *)

Lemma chunk_data_zero_step {A} (data : list A) (size : Z) :
  chunk_data data size size = Raise ValueError.
Proof. unfold chunk_data, py_range. by rewrite Z.sub_diag. Qed.

Lemma chunk_data_neg_step {A} (data : list A) (size overlap : Z) :
  size < overlap → chunk_data data size overlap = Ok [].
Proof.
  intros Hlt. unfold chunk_data, py_range.
  destruct (Z.eqb_spec (size - overlap) 0); [lia|].
  rewrite py_range_length_neg by (unfold len; lia). done.
Qed.

Lemma n_chunks_le (L step : Z) :
  0 ≤ L → 0 < step → (n_chunks L step ≤ Z.to_nat L)%nat.
Proof.
  intros HL Hstep.
  destruct (Nat.le_gt_cases (n_chunks L step) (Z.to_nat L)) as [|Hgt]; [done|].
  apply (n_chunks_lt L step (Z.to_nat L) HL Hstep) in Hgt.
  rewrite Z2Nat.id in Hgt by done. nia.
Qed.

(** X1: whatever the signs of the two parameters, the chunker raises only
    when they are equal (a ValueError); otherwise it returns at most one
    chunk per character of the input, and none when [size < overlap]. *)
Theorem chunk_data_total {A} (data : list A) (size overlap : Z) :
  (∀ e, chunk_data data size overlap = Raise e →
        size = overlap ∧ e = ValueError)
  ∧ (size ≠ overlap →
     ∃ ws, chunk_data data size overlap = Ok ws
           ∧ (length ws ≤ length data)%nat
           ∧ (size < overlap → ws = [])).
Proof.
  destruct (Z.lt_trichotomy size overlap) as [Hlt|[->|Hgt]].
  - rewrite chunk_data_neg_step by done. split; [done|].
    intros _. exists []. split_and!; [done|simpl; lia|done].
  - rewrite chunk_data_zero_step. split; [by intros e [= <-]|done].
  - rewrite chunk_data_pos by lia. split; [done|]. intros _.
    eexists. split; [done|]. rewrite length_fmap, length_seq.
    split; [|lia].
    pose proof (n_chunks_le (len data) (size - overlap)
                  ltac:(unfold len; lia) ltac:(lia)) as Hle.
    unfold len in Hle at 2. by rewrite Nat2Z.id in Hle.
Qed.

(** X2: with no overlap the chunks cut the input: concatenated they give it
    back, none is empty, and all but the last have [size] characters. *)
Theorem chunk_data_partition {A} (data : list A) (size : Z) :
  0 < size →
  ∃ ws,
    chunk_data data size 0 = Ok ws
    ∧ concat ws = data
    ∧ Forall (λ w, w ≠ []) ws
    ∧ ∀ (k : nat) w, ws !! k = Some w → (S k < length ws)%nat →
        len w = size.
Proof.
  intros Hsize.
  destruct (chunk_data data size 0) as [ws|e] eqn:Hws;
    [|by rewrite chunk_data_pos in Hws by lia].
  exists ws. split; [done|].
  pose proof (λ k, chunk_data_lookup data size 0 ws k ltac:(lia) Hsize Hws)
    as Hlk.
  rewrite Z.sub_0_r in Hlk.
  split_and!.
  - rewrite chunk_data_pos in Hws by lia. injection Hws as <-.
    erewrite list_fmap_ext; [rewrite concat_strides|].
    + apply take_ge.
      rewrite Z.sub_0_r.
      pose proof (n_chunks_lt (len data) size (n_chunks (len data) size)
                    ltac:(unfold len; lia) Hsize) as Hn.
      assert (Z.of_nat (n_chunks (len data) size * Z.to_nat size)
              = Z.of_nat (n_chunks (len data) size) * size) as Hmul
        by (rewrite Nat2Z.inj_mul, Z2Nat.id; lia).
      apply Nat2Z.inj_le. rewrite Hmul. unfold len in *. lia.
    + intros _ k _. simpl. rewrite chunk_window by lia.
      by rewrite Z.sub_0_r.
  - apply Forall_lookup. intros k w Hk. rewrite Hlk in Hk.
    case_decide as Hlt; [|done]. injection Hk as <-.
    intros Hnil%(f_equal length).
    rewrite length_take, length_drop in Hnil. unfold len in Hlt.
    simpl in Hnil. nia.
  - intros k w Hk Hnext.
    destruct (lookup_lt_is_Some_2 ws (S k) Hnext) as [w' Hk'].
    rewrite Hlk in Hk, Hk'. repeat case_decide; try done.
    injection Hk as <-. unfold len in *.
    rewrite length_take, length_drop. nia.
Qed.

(** X2, witness. *)
Lemma chunk_data_partition_witness :
  0 < 3 ∧
  ∃ ws,
    chunk_data (str "abcdefgh") 3 0 = Ok ws
    ∧ concat ws = str "abcdefgh"
    ∧ Forall (λ w, w ≠ []) ws
    ∧ ∀ (k : nat) w, ws !! k = Some w → (S k < length ws)%nat →
        len w = 3.
Proof.
  split; [lia|]. apply (chunk_data_partition (str "abcdefgh") 3). lia.
Defined.

(** X3: for [size > overlap >= 0] every chunk is a non-empty piece of the
    input, in one stretch, of at most [size] characters. *)
Theorem chunk_data_pieces {A} (data : list A) (size overlap : Z) ws :
  0 ≤ overlap → overlap < size →
  chunk_data data size overlap = Ok ws →
  Forall (λ w, (∃ before after, data = before ++ w ++ after)
               ∧ 1 ≤ len w ≤ size) ws.
Proof.
  intros Hov Hlt Hws. apply Forall_lookup. intros k w Hk.
  rewrite (chunk_data_lookup data size overlap ws k Hov Hlt Hws) in Hk.
  case_decide as Hstart; [|done]. injection Hk as <-. split.
  - exists (take (k * Z.to_nat (size - overlap)) data),
           (drop (Z.to_nat size) (drop (k * Z.to_nat (size - overlap)) data)).
    by rewrite !take_drop.
  - unfold len in *. rewrite length_take, length_drop. nia.
Qed.

(** X3, witness. *)
Lemma chunk_data_pieces_witness :
  0 ≤ 1 ∧ 1 < 4
  ∧ chunk_data (str "abcdefgh") 4 1 = Ok [str "abcd"; str "defg"; str "gh"]
  ∧ Forall (λ w, (∃ before after, str "abcdefgh" = before ++ w ++ after)
                 ∧ 1 ≤ len w ≤ 4)
           [str "abcd"; str "defg"; str "gh"].
Proof.
  split; [lia|]. split; [lia|]. split; [reflexivity|].
  apply (chunk_data_pieces (str "abcdefgh") 4 1); [lia|lia|reflexivity].
Defined.

(** X4: a non-empty input of at most [size - overlap] characters is its own
    single chunk. *)
Theorem chunk_data_single {A} (data : list A) (size overlap : Z) :
  0 ≤ overlap → 0 < len data → len data ≤ size - overlap →
  chunk_data data size overlap = Ok [data].
Proof.
  intros Hov Hne Hfit. rewrite chunk_data_pos by lia.
  assert (n_chunks (len data) (size - overlap) = 1%nat) as ->.
  { unfold n_chunks.
    replace (len data + (size - overlap) - 1)
      with ((len data - 1) + 1 * (size - overlap)) by lia.
    rewrite Z.div_add, Z.div_small by lia. done. }
  simpl. rewrite chunk_window by lia. simpl.
  rewrite take_ge; [done|]. rewrite length_drop. unfold len in *. lia.
Qed.

(** X4, witness. *)
Lemma chunk_data_single_witness :
  0 ≤ 2 ∧ 0 < len (str "abc") ∧ len (str "abc") ≤ 5 - 2
  ∧ chunk_data (str "abc") 5 2 = Ok [str "abc"].
Proof.
  split; [lia|]. split; [reflexivity|]. split; [by vm_compute|].
  apply (chunk_data_single (str "abc") 5 2); [lia|reflexivity|by vm_compute].
Defined.

(** ** More on the upsert records *)

Lemma string_app_cancel (s a b : string) : s +:+ a = s +:+ b → a = b.
Proof.
  induction s as [|c s IH]; simpl; [done|]. intros [= H]. by apply IH.
Qed.

(** X5: the identifiers of the records of one batch are pairwise distinct. *)
Theorem create_source_chunk_dict_ids_distinct {Vec}
    (chunked_data : list text) (embeddings : list Vec)
    (batch_id job_id : string) :
  NoDup (id <$> create_source_chunk_dict chunked_data embeddings
                  batch_id job_id).
Proof.
  apply NoDup_alt. intros i j x.
  rewrite !list_lookup_fmap, !create_source_chunk_dict_lookup.
  destruct (embeddings !! i), (chunked_data !! i); try done.
  destruct (embeddings !! j), (chunked_data !! j); try done.
  simpl. intros [= <-] [= H].
  do 3 apply string_app_cancel in H.
  apply string_app_cancel in H. by apply (inj pretty) in H.
Qed.

(** ** What a run sends out *)

Section Appends.
Context {Vec : Type} (w : World Vec) (P : event Vec → Prop).

Lemma appends_ret {A} (a : A) : appends P (ret a).
Proof. intros tr. exists []. by rewrite app_nil_r. Qed.

Lemma appends_lift {A} (r : result A) : appends P (lift r).
Proof. intros tr. exists []. by rewrite app_nil_r. Qed.

Lemma appends_emit e : P e → appends P (emit e).
Proof. intros He tr. exists [e]. split; [done|]. by constructor. Qed.

Lemma appends_bind {A B} (m : M Vec A) (k : A → M Vec B) :
  appends P m → (∀ a, appends P (k a)) → appends P (bind m k).
Proof.
  intros Hm Hk tr. unfold bind. destruct (Hm tr) as (d & Hd & HP).
  destruct (m tr) as [[a|e] tr1]; simpl in Hd; subst tr1; [|by exists d].
  destruct (Hk a (tr ++ d)) as (d' & Hd' & HP').
  exists (d ++ d'). rewrite Hd', app_assoc. split; [done|].
  by apply Forall_app.
Qed.

Lemma appends_bind_lift {A B} (r : result A) (k : A → M Vec B) :
  (∀ a, r = Ok a → appends P (k a)) → appends P (bind (lift r) k).
Proof.
  intros Hk tr. unfold bind, lift. destruct r as [a|e].
  - by apply Hk.
  - exists []. by rewrite app_nil_r.
Qed.

Lemma appends_try_except {A} (body : M Vec A) (handler : exn → M Vec A) :
  appends P body → (∀ e, appends P (handler e)) →
  appends P (try_except body handler).
Proof.
  intros Hb Hh tr. unfold try_except. destruct (Hb tr) as (d & Hd & HP).
  destruct (body tr) as [[a|e] tr1]; simpl in Hd; subst tr1; [by exists d|].
  destruct (Hh e (tr ++ d)) as (d' & Hd' & HP').
  exists (d ++ d'). rewrite Hd', app_assoc. split; [done|].
  by apply Forall_app.
Qed.

Lemma appends_update_job_status job_id st batch_id :
  (∀ out, P (EPut (base_request_url +:+ "/jobs/" +:+ job_id) batch_id st out)) →
  appends P (update_job_status w job_id st batch_id).
Proof. intros HP tr. eexists [_]. split; [done|]. by constructor. Qed.

Lemma appends_create model input :
  (∀ out, P (ECreate model input out)) →
  appends P (openai_Embedding_create w model input).
Proof. intros HP tr. eexists [_]. split; [done|]. by constructor. Qed.

Lemma appends_pinecone_init api_key env :
  (∀ out, P (EPinecone_init api_key env out)) →
  appends P (pinecone_init w api_key env).
Proof. intros HP tr. eexists [_]. split; [done|]. by constructor. Qed.

Lemma appends_pinecone_Index name :
  (∀ out, P (EPinecone_Index name out)) → appends P (pinecone_Index w name).
Proof. intros HP tr. eexists [_]. split; [done|]. by constructor. Qed.

Lemma appends_index_upsert vectors :
  (∀ out, P (EUpsert vectors out)) → appends P (index_upsert w vectors).
Proof. intros HP tr. eexists [_]. split; [done|]. by constructor. Qed.
End Appends.

Section Conforms.
Context {Vec : Type} (w : World Vec) (batch : Batch).

Lemma conforms_report st :
  st = BatchStatus.COMPLETED ∨ st = BatchStatus.FAILED →
  appends (conforms batch)
    (update_job_status w (job_id batch) st (batch_id batch)).
Proof. intros Hst. apply appends_update_job_status. by intros out. Qed.

Lemma conforms_getattr_report name :
  name = "COMPLETED" ∨ name = "FAILED" →
  appends (conforms batch)
    (bind (lift (BatchStatus.getattr name))
       (λ st, update_job_status w (job_id batch) st (batch_id batch))).
Proof.
  intros [-> | ->]; apply appends_bind_lift; intros st [= <-];
    apply conforms_report; auto.
Qed.

Lemma conforms_fail_and_return m :
  appends (conforms batch) (fail_and_return w batch m).
Proof.
  unfold fail_and_return. apply appends_bind; [by apply appends_emit|].
  intros _. by apply appends_bind_lift.
Qed.

Lemma conforms_after_try i : appends (conforms batch) (after_try w batch i).
Proof.
  unfold after_try. destruct (i =? 4);
    [apply conforms_fail_and_return|apply appends_ret].
Qed.

Lemma conforms_except_then_after i e :
  0 ≤ i ≤ 4 → appends (conforms batch) (except_then_after w batch i e).
Proof.
  intros Hi. unfold except_then_after, except_block.
  apply appends_bind.
  - apply appends_bind; [by apply appends_emit|]. intros _.
    apply appends_bind.
    + apply appends_emit. simpl.
      assert (2 ^ 0 ≤ 2 ^ i ≤ 2 ^ 4) as Hpow
        by (split; apply Z.pow_le_mono_r; lia).
      simpl in Hpow. lia.
    + intros _. destruct (i =? 4);
        [apply conforms_fail_and_return|apply appends_ret].
  - intros [| |v]; [apply conforms_after_try|apply appends_ret..].
Qed.

Lemma conforms_for_loop chunked_data (n : nat) :
  chunk_data (source_data batch) (chunk_size (embeddings_metadata batch))
             (chunk_overlap (embeddings_metadata batch)) = Ok chunked_data →
  ∀ i response, 0 ≤ i → i + Z.of_nat n ≤ 5 →
    appends (conforms batch)
      (for_loop w batch chunked_data (range_from i n) response).
Proof.
  intros Hchunks. induction n as [|n IH]; intros i response Hi Hn; simpl.
  - apply appends_ret.
  - apply appends_bind.
    + unfold loop_body. apply appends_bind;
        [by apply appends_create|].
      intros [r|e].
      * destruct (data_0_embedding r) as [embedding|e].
        -- destruct (truthy embedding); [apply appends_ret|].
           apply appends_bind; [apply conforms_after_try|].
           intros c. apply appends_ret.
        -- apply appends_bind; [apply conforms_except_then_after; lia|].
           intros c. apply appends_ret.
      * apply appends_bind; [apply conforms_except_then_after; lia|].
        intros c. apply appends_ret.
    + intros [[| |v] response']; simpl; [apply IH; lia|apply appends_ret..].
Qed.

Lemma conforms_write_embeddings embeddings chunked_data :
  appends (conforms batch)
    (write_embeddings_to_vector_db w embeddings chunked_data
       (vector_db_metadata batch) (batch_id batch) (job_id batch)).
Proof.
  unfold write_embeddings_to_vector_db, write_embeddings_to_pinecone.
  destruct (String.eqb _ _).
  - apply appends_bind; [by apply appends_pinecone_init|]. intros _.
    apply appends_bind; [by apply appends_pinecone_Index|]. intros index.
    destruct (negb (Index_bool index)).
    + apply appends_bind; [by apply appends_emit|]. intros _.
      apply appends_ret.
    + apply appends_bind; [|intros r; apply appends_ret].
      apply appends_index_upsert. intros out i r Hr.
      rewrite create_source_chunk_dict_lookup in Hr.
      destruct (embeddings !! i), (chunked_data !! i); try done.
      by injection Hr as <-.
  - apply appends_bind; [by apply appends_emit|]. intros _.
    apply appends_ret.
Qed.

Lemma conforms_embed_openai_batch :
  appends (conforms batch) (embed_openai_batch w batch).
Proof.
  unfold embed_openai_batch.
  apply appends_bind; [by apply appends_emit|]. intros _.
  apply appends_bind; [by apply appends_emit|]. intros _.
  apply appends_bind_lift. intros chunked_data Hchunks.
  rewrite range_5. apply appends_bind_lift. intros range [= <-].
  apply appends_bind;
    [apply (conforms_for_loop chunked_data 5 Hchunks 0 None); lia|].
  intros [c response]. simpl.
  assert (appends (conforms batch)
            match response with
            | Some response0 =>
                bind (lift (data_0_embedding response0))
                  (λ embeddings,
                     write_embeddings_to_vector_db w embeddings chunked_data
                       (vector_db_metadata batch) (batch_id batch)
                       (job_id batch))
            | None => lift (Raise UnboundLocalError)
            end) as Hrest.
  { destruct response as [r|]; [|apply appends_lift].
    apply appends_bind_lift. intros embeddings _.
    apply conforms_write_embeddings. }
  destruct c; [done|done|apply appends_ret].
Qed.

Lemma conforms_process_batch :
  appends (conforms batch) (process_batch w batch).
Proof.
  unfold process_batch. destruct (String.eqb _ _).
  - apply appends_try_except.
    + apply appends_bind; [apply conforms_embed_openai_batch|].
      intros v. destruct (py_bool v); apply conforms_getattr_report; auto.
    + intros e. apply appends_bind; [by apply appends_emit|]. intros _.
      apply conforms_getattr_report; auto.
  - apply appends_bind; [by apply appends_emit|]. intros _.
    apply conforms_getattr_report; auto.
Qed.
End Conforms.

(** X6: everything a run sends out is derived from its batch: each provider
    call names the model text-embedding-ada-002 and carries the chunks of
    the batch, on every retry; pinecone gets the credentials and the index
    name of the batch; each record identifier is [{job_id}_{batch_id}_{i}]
    for its position [i]; each report goes to the URL of the batch's job,
    with the batch's identifier and COMPLETED or FAILED; each sleep lasts
    between 1 and 16 seconds. *)
Theorem run_conforms {Vec} (w : World Vec) (batch : Batch) :
  Forall (conforms batch) (snd (run w batch)).
Proof.
  unfold run. destruct (conforms_process_batch w batch []) as (d & -> & Hd).
  done.
Qed.

(** ** The shape of a run *)

Section Shape.
Context {Vec : Type} (w : World Vec).
Implicit Types (tr d : list (event Vec)) (batch : Batch).

Lemma sleeps_ticks tr : sleeps tr = tick_sleeps (ticks tr).
Proof.
  induction tr as [|e tr IH]; [done|]. destruct e; simpl; by rewrite ?IH.
Qed.

Lemma tick_sleeps_app (ts ts' : list (tick Vec)) :
  tick_sleeps (ts ++ ts') = tick_sleeps ts ++ tick_sleeps ts'.
Proof. apply omap_app. Qed.

(** The sleeps of a schedule that starts at attempt [i] add up to less
    than [2^(i+n) - 2^i] for [n] attempts. *)
Lemma backoff_schedule_sum (outs : list (result (Response Vec))) :
  ∀ i, 0 ≤ i →
    0 ≤ foldr Z.add 0 (tick_sleeps (backoff_schedule i outs))
      ≤ 2 ^ (i + Z.of_nat (length outs)) - 2 ^ i.
Proof.
  induction outs as [|out outs IH]; intros i Hi.
  - simpl. rewrite Z.add_0_r. lia.
  - specialize (IH (i + 1) ltac:(lia)).
    replace (i + Z.of_nat (length (out :: outs)))
      with (i + 1 + Z.of_nat (length outs)) by (simpl; lia).
    assert (2 ^ (i + 1) = 2 * 2 ^ i) as Hpow
      by (rewrite Z.pow_add_r by lia; lia).
    assert (0 < 2 ^ i) by (apply Z.pow_pos_nonneg; lia).
    simpl. destruct (attempt_raised out); simpl; lia.
Qed.

Lemma attempt_raised_failed (out : result (Response Vec)) :
  attempt_failed out = false → attempt_raised out = false.
Proof.
  destruct out as [r|e]; simpl; [|done].
  by destruct (data_0_embedding r).
Qed.

(** [embed_openai_batch], step by step: the two events before the loop,
    the events of the loop, and then either the AttributeError of the
    exhausted loop or the vector-store write with the embeddings of the
    last attempt. *)
Lemma embed_openai_batch_shape batch tr :
  let em := embeddings_metadata batch in
  let pre : list (event Vec) :=
    [ESet_api_key (em_api_key em);
     ECall_chunk_data (source_data batch) (chunk_size em) (chunk_overlap em)] in
  match chunk_data (source_data batch) (chunk_size em) (chunk_overlap em) with
  | Raise e => embed_openai_batch w batch tr = (Raise e, tr ++ pre)
  | Ok chunked_data =>
      ∃ dl,
        Forall loop_event dl
        ∧ (1 ≤ length (attempts dl) ≤ 5)%nat
        ∧ ((forallb attempt_failed (attempts dl) = true
            ∧ embed_openai_batch w batch tr
              = (Raise AttributeError, tr ++ pre ++ dl))
           ∨ (∃ r embedding,
                last (attempts dl) = Some (Ok r)
                ∧ data_0_embedding r = Ok embedding
                ∧ truthy embedding = true
                ∧ embed_openai_batch w batch tr
                  = write_embeddings_to_vector_db w embedding chunked_data
                      (vector_db_metadata batch) (batch_id batch)
                      (job_id batch) (tr ++ pre ++ dl)))
  end.
Proof.
  intros em pre. unfold embed_openai_batch, bind, emit, lift.
  rewrite range_5. fold em.
  destruct (chunk_data _ _ _) as [chunked_data|e] eqn:Hchunks;
    [|by rewrite <- app_assoc].
  replace ((tr ++ [ESet_api_key (em_api_key em)]) ++
           [ECall_chunk_data (source_data batch) (chunk_size em)
              (chunk_overlap em)]) with (tr ++ pre)
    by (by rewrite <- app_assoc).
  destruct (for_loop_spec w batch chunked_data 5 0 None (tr ++ pre)
              ltac:(lia) ltac:(lia))
    as (dl & Hdl & Hev & _ & Hcase).
  destruct (for_loop w batch chunked_data (range_from 0 5) None (tr ++ pre))
    as [res tr1].
  simpl in Hdl, Hcase. subst tr1. exists dl. split; [done|].
  destruct Hcase as [(fails & r & embedding & -> & Hatt & Hr & Ht & Hf & Hl)
                    |(-> & Hl & Hf)].
  - rewrite Hatt, length_app. simpl. split; [lia|]. right.
    exists r, embedding. rewrite last_snoc, Hr, <- app_assoc. done.
  - rewrite Hl. split; [lia|]. left. by rewrite <- app_assoc.
Qed.

(** The calls [write_embeddings_to_vector_db] makes to the store. *)
Lemma write_embeddings_store_shape (embeddings : list Vec)
    (chunked_data : list text) vdm (batch_id job_id : string) tr :
  ∃ d,
    snd (write_embeddings_to_vector_db w embeddings chunked_data vdm
           batch_id job_id tr) = tr ++ d
    ∧ store_shape (store_calls d)
    ∧ (length (upserts d) ≤ 1)%nat
    ∧ attempts d = [].
Proof.
  unfold write_embeddings_to_vector_db, write_embeddings_to_pinecone, bind,
    pinecone_init, pinecone_Index, index_upsert, print, emit, ret.
  destruct (String.eqb (vector_db_type vdm) "PINECONE");
    [destruct (world_pinecone_init w tr _ _) as [[]|e]; simpl;
     [destruct (world_pinecone_Index w _ _) as [index|e]; simpl;
      [destruct (Index_bool index) eqn:Hbool; simpl;
       [destruct (world_upsert w _ _) as [r|e]; simpl|]|]|]|];
    rewrite <- ?app_assoc; (eexists; split; [done|]); simpl;
    split_and!; done || lia.
Qed.

(** [process_batch] on a batch of type OPEN_AI, step by step: the events
    of [embed_openai_batch], the report of the verdict and, when that
    report raised, the message and the report of the handler; when the
    embedding raised, only the latter two. *)
Lemma process_batch_unfold batch :
  String.eqb (embeddings_type (embeddings_metadata batch)) "OPEN_AI" = true →
  let url := base_request_url +:+ "/jobs/" +:+ job_id batch in
  let put tr st := world_put w tr url (batch_id batch) st in
  let report tr st := EPut url (batch_id batch) st (put tr st) in
  let d := snd (embed_openai_batch w batch []) in
  run w batch =
    match fst (embed_openai_batch w batch []) with
    | Ok v =>
        let st := if py_bool v then BatchStatus.COMPLETED
                  else BatchStatus.FAILED in
        match put d st with
        | Ok _ => (Ok tt, d ++ [report d st])
        | Raise e =>
            let tr2 := d ++ [report d st; EPrint (Error_embedding_batch e)] in
            (put tr2 BatchStatus.FAILED,
             tr2 ++ [report tr2 BatchStatus.FAILED])
        end
    | Raise e =>
        let tr1 := d ++ [EPrint (Error_embedding_batch e)] in
        (put tr1 BatchStatus.FAILED, tr1 ++ [report tr1 BatchStatus.FAILED])
    end.
Proof.
  intros Htype. unfold run, process_batch. rewrite Htype.
  unfold try_except, bind.
  destruct (embed_openai_batch w batch []) as [[v|e] d]; simpl.
  - destruct (py_bool v); simpl; unfold update_job_status;
      (destruct (world_put w d _ _ _) as [[]|e] eqn:Hput; simpl;
       [done|by rewrite <- app_assoc]).
  - done.
Qed.
End Shape.

Section Anatomy.
Context {Vec : Type} (w : World Vec).
Implicit Types (tr d : list (event Vec)) (batch : Batch).

(** The events of [embed_openai_batch], in three parts: before the loop,
    the loop, the store. *)
Lemma embed_openai_batch_anatomy batch :
  let em := embeddings_metadata batch in
  let pre : list (event Vec) :=
    [ESet_api_key (em_api_key em);
     ECall_chunk_data (source_data batch) (chunk_size em) (chunk_overlap em)] in
  ∃ dl ds,
    snd (embed_openai_batch w batch []) = pre ++ dl ++ ds
    ∧ Forall loop_event dl
    ∧ store_shape (store_calls ds)
    ∧ (length (upserts ds) ≤ 1)%nat
    ∧ attempts ds = []
    ∧ match chunk_data (source_data batch) (chunk_size em)
                       (chunk_overlap em) with
      | Raise e =>
          dl = [] ∧ ds = [] ∧ fst (embed_openai_batch w batch []) = Raise e
      | Ok _ => (1 ≤ length (attempts dl) ≤ 5)%nat
      end
    ∧ (store_calls ds ≠ [] →
       ∃ r embedding,
         last (attempts dl) = Some (Ok r)
         ∧ data_0_embedding r = Ok embedding ∧ truthy embedding = true).
Proof.
  intros em pre.
  pose proof (embed_openai_batch_shape w batch []) as Hshape.
  cbv zeta in Hshape. fold em in Hshape. fold pre in Hshape.
  destruct (chunk_data _ _ _) as [chunked_data|e].
  - destruct Hshape as (dl & Hev & Hlen & [[Hall ->]|Hok]).
    + exists dl, []. rewrite app_nil_r. simpl. split_and!; try done; lia.
    + destruct Hok as (r & embedding & Hlast & Hr & Ht & ->).
      destruct (write_embeddings_store_shape w embedding chunked_data
                  (vector_db_metadata batch) (batch_id batch) (job_id batch)
                  ([] ++ pre ++ dl)) as (ds & -> & Hs & Hu & Ha).
      exists dl, ds. rewrite app_nil_l, <- app_assoc.
      split_and!; try done; try lia. eauto.
  - rewrite Hshape. exists [], []. simpl. split_and!; try done; lia.
Qed.

(** After [embed_openai_batch], [process_batch] only prints and
    reports. *)
Lemma process_batch_tail batch :
  String.eqb (embeddings_type (embeddings_metadata batch)) "OPEN_AI" = true →
  ∃ tail,
    snd (run w batch) = snd (embed_openai_batch w batch []) ++ tail
    ∧ Forall report_event tail.
Proof.
  intros Htype. rewrite (process_batch_unfold w batch Htype). simpl.
  destruct (fst (embed_openai_batch w batch [])) as [v|e]; simpl.
  - destruct (world_put w _ _ _ _) as [[]|e]; simpl;
      rewrite <- ?app_assoc; eexists; (split; [done|]); repeat constructor.
  - rewrite <- app_assoc. eexists; (split; [done|]); repeat constructor.
Qed.
End Anatomy.

Section ProcessLast.
Context {Vec : Type} (w : World Vec).

Lemma process_batch_last_event (batch : Batch) :
  ∃ url st out,
    last (snd (run w batch)) = Some (EPut url (batch_id batch) st out)
    ∧ fst (run w batch) = out
    ∧ (st = BatchStatus.COMPLETED ∨ st = BatchStatus.FAILED).
Proof.
  destruct (String.eqb (embeddings_type (embeddings_metadata batch))
              "OPEN_AI") eqn:Htype.
  - rewrite (process_batch_unfold w batch Htype). simpl.
    destruct (fst (embed_openai_batch w batch [])) as [v|e]; simpl.
    + destruct (world_put w _ _ _ _) as [[]|e] eqn:Hput; simpl;
        do 3 eexists; rewrite last_snoc; (split; [done|]);
        (split; [done|]); destruct (py_bool v); auto.
    + do 3 eexists. rewrite last_snoc. auto.
  - rewrite (process_batch_unsupported w batch Htype). simpl.
    do 3 eexists. auto.
Qed.
End ProcessLast.

(** ** More on [process_batch] *)

(** X12: a run ends with a status report for its batch, and [process_batch]
    returns when that report returns and raises what it raises: nothing
    else escapes from it. *)
Theorem run_ends_with_report {Vec} (w : World Vec) (batch : Batch) :
  ∃ url st out,
    last (snd (run w batch)) = Some (EPut url (batch_id batch) st out)
    ∧ fst (run w batch) = out
    ∧ (st = BatchStatus.COMPLETED ∨ st = BatchStatus.FAILED).
Proof. apply process_batch_last_event. Qed.

(** X13: when the upsert was acknowledged and a status report raised, the
    batch has been reported COMPLETED and then FAILED: the handler of
    [process_batch] also covers the report of COMPLETED. *)
Theorem completed_then_failed {Vec} (w : World Vec) (batch : Batch) :
  let tr := snd (run w batch) in
  upsert_acknowledged tr = true → reports_delivered tr = false →
  reports tr = [BatchStatus.COMPLETED; BatchStatus.FAILED].
Proof.
  destruct (String.eqb (embeddings_type (embeddings_metadata batch))
              "OPEN_AI") eqn:Htype.
  2:{ rewrite (process_batch_unsupported w batch Htype). done. }
  destruct (embed_openai_batch_spec w batch []) as (d & Hd & Hfacts).
  destruct Hfacts as (Hr & Hro & _ & _ & _ & Hres & _).
  rewrite (process_batch_unfold w batch Htype). simpl in *.
  rewrite Hd. clear Hd.
  destruct (fst (embed_openai_batch w batch [])) as [v|e]; simpl.
  - rewrite Hres.
    destruct (world_put w d _ _ _) as [[]|e] eqn:Hput; simpl;
      unfold upsert_acknowledged, reports_delivered;
      autorewrite with trace; rewrite Hr, Hro; simpl;
      rewrite ?app_nil_r; fold (upsert_acknowledged d).
    + done.
    + by intros ->.
  - unfold upsert_acknowledged in *. autorewrite with trace. simpl.
    rewrite !app_nil_r, Hres. done.
Qed.

(** X13, witness: the status endpoint is down. *)
Lemma completed_then_failed_witness :
  let w := a_world provider_up true true false in
  let batch := a_batch "OPEN_AI" "PINECONE" 4 1 in
  upsert_acknowledged (snd (run w batch)) = true
  ∧ reports_delivered (snd (run w batch)) = false
  ∧ reports (snd (run w batch)) = [BatchStatus.COMPLETED; BatchStatus.FAILED].
Proof.
  split; [reflexivity|]. split; [reflexivity|].
  apply (completed_then_failed (a_world provider_up true true false)
           (a_batch "OPEN_AI" "PINECONE" 4 1)); reflexivity.
Defined.

Section RunAnatomy.
Context {Vec : Type} (w : World Vec).
Implicit Types (tr d : list (event Vec)) (batch : Batch).

(** A run on a batch of type OPEN_AI: its provider calls are those of the
    loop and its store calls those of the vector-store write. *)
Lemma run_anatomy batch :
  String.eqb (embeddings_type (embeddings_metadata batch)) "OPEN_AI" = true →
  let em := embeddings_metadata batch in
  ∃ dl ds,
    attempts (snd (run w batch)) = attempts dl
    ∧ store_calls (snd (run w batch)) = store_calls ds
    ∧ upserts (snd (run w batch)) = upserts ds
    ∧ store_shape (store_calls ds)
    ∧ (length (upserts ds) ≤ 1)%nat
    ∧ match chunk_data (source_data batch) (chunk_size em)
                       (chunk_overlap em) with
      | Raise e => dl = [] ∧ ds = []
      | Ok _ => (1 ≤ length (attempts dl) ≤ 5)%nat
      end
    ∧ (store_calls ds ≠ [] →
       ∃ r embedding,
         last (attempts dl) = Some (Ok r)
         ∧ data_0_embedding r = Ok embedding ∧ truthy embedding = true).
Proof.
  intros Htype em.
  destruct (process_batch_tail w batch Htype) as (tail & -> & Htail).
  destruct (embed_openai_batch_anatomy w batch)
    as (dl & ds & -> & Hev & Hshape & Hups & Hatt & Hchunks & Hlast).
  destruct (loop_events_quiet dl Hev) as (_ & _ & Hq3 & Hq4 & _).
  destruct (report_events_quiet tail Htail) as (Ht1 & _ & Ht3 & Ht4 & _).
  exists dl, ds. autorewrite with trace. simpl.
  rewrite Hq3, Hq4, Ht1, Ht3, Ht4, Hatt, !app_nil_r. simpl.
  split_and!; try done.
  fold em in Hchunks. destruct (chunk_data _ _ _); [done|].
  by destruct Hchunks as (? & ? & _).
Qed.
End RunAnatomy.

Lemma foldr_add_app (l l' : list Z) :
  foldr Z.add 0 (l ++ l') = foldr Z.add 0 l + foldr Z.add 0 l'.
Proof. induction l as [|x l IH]; simpl; lia. Qed.

(** X7: the store is written at most once per batch, with no retry: the calls
    are [pinecone.init], then [pinecone.Index], then one [index.upsert],
    each made only when the one before returned (and the index object is
    truthy); and the store is called only after an attempt gave an
    embedding. *)
Theorem store_called_once {Vec} (w : World Vec) (batch : Batch) :
  let tr := snd (run w batch) in
  store_shape (store_calls tr)
  ∧ (length (upserts tr) ≤ 1)%nat
  ∧ (store_calls tr ≠ [] →
     ∃ r embedding,
       last (attempts tr) = Some (Ok r)
       ∧ data_0_embedding r = Ok embedding ∧ truthy embedding = true).
Proof.
  destruct (String.eqb (embeddings_type (embeddings_metadata batch))
              "OPEN_AI") eqn:Htype.
  - destruct (run_anatomy w batch Htype)
      as (dl & ds & Ha & Hs & Hu & Hshape & Hlen & _ & Hlast).
    simpl. by rewrite Ha, Hs, Hu.
  - rewrite (process_batch_unsupported w batch Htype). simpl.
    split_and!; [done|lia|done].
Qed.

(** X8: a batch of type OPEN_AI whose chunk size equals its chunk overlap is
    reported FAILED, once, for the ValueError of the chunker, before any
    call to the provider or to the store. *)
Theorem invalid_chunk_parameters {Vec} (w : World Vec) (batch : Batch) :
  String.eqb (embeddings_type (embeddings_metadata batch)) "OPEN_AI" = true →
  chunk_size (embeddings_metadata batch)
  = chunk_overlap (embeddings_metadata batch) →
  let tr := snd (run w batch) in
  EPrint (Error_embedding_batch ValueError) ∈ tr
  ∧ attempts tr = [] ∧ store_calls tr = []
  ∧ reports tr = [BatchStatus.FAILED].
Proof.
  intros Htype Heq.
  pose proof (embed_openai_batch_shape w batch []) as Hshape.
  cbv zeta in Hshape. rewrite Heq, chunk_data_zero_step in Hshape.
  rewrite (process_batch_unfold w batch Htype). simpl.
  rewrite Hshape. simpl. split_and!; try done.
  do 2 apply list_elem_of_further. apply list_elem_of_here.
Qed.

(** X8, witness. *)
Lemma invalid_chunk_parameters_witness :
  let w := a_world provider_up true true true in
  let batch := a_batch "OPEN_AI" "PINECONE" 4 4 in
  String.eqb (embeddings_type (embeddings_metadata batch)) "OPEN_AI" = true
  ∧ chunk_size (embeddings_metadata batch)
    = chunk_overlap (embeddings_metadata batch)
  ∧ EPrint (Error_embedding_batch ValueError) ∈ snd (run w batch)
  ∧ attempts (snd (run w batch)) = [] ∧ store_calls (snd (run w batch)) = []
  ∧ reports (snd (run w batch)) = [BatchStatus.FAILED].
Proof.
  split; [reflexivity|]. split; [reflexivity|].
  apply (invalid_chunk_parameters (a_world provider_up true true true)
           (a_batch "OPEN_AI" "PINECONE" 4 4)); reflexivity.
Defined.

(** X9: for a batch of type OPEN_AI whose chunk size differs from its chunk
    overlap the provider is called at least once and at most five
    times. *)
Theorem provider_called {Vec} (w : World Vec) (batch : Batch) :
  String.eqb (embeddings_type (embeddings_metadata batch)) "OPEN_AI" = true →
  chunk_size (embeddings_metadata batch)
  ≠ chunk_overlap (embeddings_metadata batch) →
  (1 ≤ length (attempts (snd (run w batch))) ≤ 5)%nat.
Proof.
  intros Htype Hne.
  destruct (run_anatomy w batch Htype)
    as (dl & ds & -> & _ & _ & _ & _ & Hchunks & _).
  destruct (chunk_data _ _ _) as [chunked_data|e] eqn:Hc; [done|].
  destruct (Z.lt_trichotomy (chunk_size (embeddings_metadata batch))
              (chunk_overlap (embeddings_metadata batch))) as [Hlt|[Heq|Hgt]].
  - by rewrite chunk_data_neg_step in Hc.
  - done.
  - by rewrite chunk_data_pos in Hc by lia.
Qed.

(** X9, witness. *)
Lemma provider_called_witness :
  let w := a_world provider_down true true true in
  let batch := a_batch "OPEN_AI" "PINECONE" 4 1 in
  String.eqb (embeddings_type (embeddings_metadata batch)) "OPEN_AI" = true
  ∧ chunk_size (embeddings_metadata batch)
    ≠ chunk_overlap (embeddings_metadata batch)
  ∧ (1 ≤ length (attempts (snd (run w batch))) ≤ 5)%nat.
Proof.
  split; [reflexivity|]. split; [by vm_compute|].
  apply (provider_called (a_world provider_down true true true)
           (a_batch "OPEN_AI" "PINECONE" 4 1)); [reflexivity|by vm_compute].
Defined.

(** X10: the sleeps of a run add up to at most 31 seconds, and to at most 15
    when the batch is reported COMPLETED. *)
Theorem total_sleep_bound {Vec} (w : World Vec) (batch : Batch) :
  let tr := snd (run w batch) in
  0 ≤ total_sleep tr ≤ 31
  ∧ (BatchStatus.COMPLETED ∈ reports tr → total_sleep tr ≤ 15).
Proof.
  destruct (String.eqb (embeddings_type (embeddings_metadata batch))
              "OPEN_AI") eqn:Htype.
  2:{ rewrite (process_batch_unsupported w batch Htype). simpl.
      unfold total_sleep. simpl. split; [lia|]. intros _. lia. }
  destruct (process_batch_open_ai w batch Htype)
    as (d & res & tail & Hfacts & -> & Htail & Hcase).
  destruct Hfacts as (Hr & _ & Hticks & Hle & Hfails & _ & Hall & _).
  destruct (report_events_quiet tail Htail) as (_ & Ht & _).
  simpl. unfold total_sleep.
  rewrite sleeps_ticks, ticks_app, Ht, app_nil_r, Hticks, reports_app, Hr.
  simpl.
  assert (∀ n : nat, (n ≤ 5)%nat → 2 ^ (0 + Z.of_nat n) - 2 ^ 0 ≤ 31) as Hpow.
  { intros n Hn. assert (2 ^ Z.of_nat n ≤ 2 ^ 5) as H5
      by (apply Z.pow_le_mono_r; lia).
    change (2 ^ 5) with 32 in H5. change (2 ^ 0) with 1.
    rewrite Z.add_0_l. lia. }
  split.
  - pose proof (backoff_schedule_sum (attempts d) 0 ltac:(lia)) as Hsum.
    specialize (Hpow _ Hle). lia.
  - intros Hcompleted.
    assert (verdict d = BatchStatus.COMPLETED) as Hv.
    { destruct Hcase as [[Hrep _]|(Hrep & _)]; rewrite Hrep in Hcompleted;
        repeat (apply elem_of_cons in Hcompleted as [Hcompleted|Hcompleted];
                [done|]);
        by apply elem_of_nil in Hcompleted. }
    unfold verdict in Hv.
    destruct (upsert_acknowledged d) eqn:Hack; [|done].
    destruct (forallb attempt_failed (attempts d)) eqn:Hallf.
    { destruct (Hall eq_refl) as [Hstore _].
      apply upserts_store_calls in Hstore.
      unfold upsert_acknowledged in Hack. by rewrite Hstore in Hack. }
    destruct (attempts d) as [|o os] eqn:Hatt using rev_ind; [done|].
    clear IHos. specialize (Hfails _ _ eq_refl).
    rewrite forallb_app, Hfails in Hallf. simpl in Hallf.
    rewrite andb_true_r in Hallf.
    rewrite backoff_schedule_app, tick_sleeps_app, foldr_add_app. simpl.
    rewrite (attempt_raised_failed _ Hallf). simpl.
    rewrite length_app in Hle. simpl in Hle.
    pose proof (backoff_schedule_sum os 0 ltac:(lia)) as Hsum.
    assert (2 ^ Z.of_nat (length os) ≤ 2 ^ 4) as H4
      by (apply Z.pow_le_mono_r; lia).
    change (2 ^ 4) with 16 in H4. change (2 ^ 0) with 1 in Hsum.
    rewrite Z.add_0_l in Hsum. lia.
Qed.

Lemma chunk_data_nil {A} (size overlap : Z) :
  size ≠ overlap → chunk_data (@nil A) size overlap = Ok [].
Proof.
  intros Hne.
  destruct (Z.lt_trichotomy size overlap) as [Hlt|[Heq|Hgt]]; [|done|].
  - by apply chunk_data_neg_step.
  - rewrite chunk_data_pos by lia. unfold n_chunks, len. simpl.
    rewrite Z.div_small by lia. done.
Qed.

Lemma provider_inputs_conform {Vec} (batch : Batch) (tr : list (event Vec)) :
  Forall (conforms batch) tr →
  Forall (λ input,
            chunk_data (source_data batch)
                       (chunk_size (embeddings_metadata batch))
                       (chunk_overlap (embeddings_metadata batch))
            = Ok input) (provider_inputs tr).
Proof.
  induction 1 as [|e tr He _ IH]; [constructor|].
  destruct e; simpl; try done. constructor; [|done]. by destruct He.
Qed.

(** X11: when the chunk size is below the chunk overlap, or the source text is
    empty (and the two parameters differ), the batch has no chunks: every
    provider call carries an empty input and every upsert an empty list of
    records. *)
Theorem nothing_to_embed {Vec} (w : World Vec) (batch : Batch) :
  chunk_size (embeddings_metadata batch)
  < chunk_overlap (embeddings_metadata batch)
  ∨ (source_data batch = []
     ∧ chunk_size (embeddings_metadata batch)
       ≠ chunk_overlap (embeddings_metadata batch)) →
  let tr := snd (run w batch) in
  Forall (λ input, input = []) (provider_inputs tr)
  ∧ Forall (λ c, c.1 = []) (upserts tr).
Proof.
  intros Hempty.
  assert (chunk_data (source_data batch)
            (chunk_size (embeddings_metadata batch))
            (chunk_overlap (embeddings_metadata batch)) = Ok []) as Hchunks.
  { destruct Hempty as [Hlt|[-> Hne]];
      [by apply chunk_data_neg_step|by apply chunk_data_nil]. }
  simpl. split.
  - destruct (conforms_process_batch w batch []) as (d & Hd & Hconf).
    unfold run. rewrite Hd. simpl.
    eapply Forall_impl; [by apply provider_inputs_conform|].
    simpl. intros input Hin. rewrite Hchunks in Hin. by injection Hin.
  - destruct (String.eqb (embeddings_type (embeddings_metadata batch))
                "OPEN_AI") eqn:Htype.
    + destruct (process_batch_open_ai w batch Htype)
        as (d & res & tail & Hfacts & -> & Htail & _).
      destruct Hfacts as (_ & _ & _ & _ & _ & _ & _ & _ & _ & Hrec).
      destruct (report_events_quiet tail Htail) as (_ & _ & Hu & _).
      rewrite upserts_app, Hu, app_nil_r.
      apply Forall_forall. intros c Hc.
      destruct (Hrec c Hc) as (chunked_data & r & embeddings & Hcd & _ & _ & ->).
      rewrite Hchunks in Hcd. injection Hcd as <-.
      apply nil_length_inv. rewrite create_source_chunk_dict_length. done.
    + rewrite (process_batch_unsupported w batch Htype). simpl. constructor.
Qed.

(** X11, witness: chunk size 1 and overlap 2; the provider
    answers, an empty list is upserted and the batch is reported
    COMPLETED. *)
Lemma nothing_to_embed_witness :
  let w := a_world provider_short true true true in
  (chunk_size (embeddings_metadata overlapping_batch)
   < chunk_overlap (embeddings_metadata overlapping_batch)
   ∨ (source_data overlapping_batch = []
      ∧ chunk_size (embeddings_metadata overlapping_batch)
        ≠ chunk_overlap (embeddings_metadata overlapping_batch)))
  ∧ reports (snd (run w overlapping_batch)) = [BatchStatus.COMPLETED]
  ∧ Forall (λ input, input = []) (provider_inputs (snd (run w overlapping_batch)))
  ∧ Forall (λ c, c.1 = []) (upserts (snd (run w overlapping_batch))).
Proof.
  split; [left; by vm_compute|]. split; [reflexivity|].
  apply (nothing_to_embed (a_world provider_short true true true)
           overlapping_batch).
  left. by vm_compute.
Defined.

(** ** The polling loop *)

Section PollLoop.
Context {Vec : Type} (pw : PollWorld Vec).
Implicit Types (tr : list (poll_event Vec)).

Lemma polls_app tr tr' : polls (tr ++ tr') = polls tr ++ polls tr'.
Proof. apply omap_app. Qed.

Lemma poll_sleeps_app tr tr' :
  poll_sleeps (tr ++ tr') = poll_sleeps tr ++ poll_sleeps tr'.
Proof. apply omap_app. Qed.

Lemma worker_events_app tr tr' :
  worker_events (tr ++ tr') = worker_events tr ++ worker_events tr'.
Proof. apply omap_app. Qed.

Lemma worker_events_PWorker (evs : list (event Vec)) :
  worker_events (PWorker <$> evs) = evs.
Proof.
  induction evs as [|e evs IH]; [done|]. rewrite fmap_cons.
  change (worker_events (PWorker e :: (PWorker <$> evs)))
    with (e :: worker_events (PWorker <$> evs)).
  by rewrite IH.
Qed.

Lemma polls_PWorker (evs : list (event Vec)) : polls (PWorker <$> evs) = [].
Proof. by induction evs. Qed.

(** Once a pass has raised, more passes change nothing: the loop is
    over. *)
Lemma main_loop_raise_stable (n : nat) :
  ∀ tr e tr', main_loop pw n tr = (Raise e, tr') →
    ∀ k : nat, main_loop pw (n + k) tr = (Raise e, tr').
Proof.
  induction n as [|n IH]; intros tr e tr' Hloop k; [done|].
  simpl in *. destruct (iteration pw tr) as [[[]|e0] tr0]; [|done].
  by apply IH.
Qed.

(** A pass raises only for one of the three causes. *)
Lemma iteration_crash tr e :
  fst (iteration pw tr) = Raise e →
  crash_cause e (last (snd (iteration pw tr))).
Proof.
  unfold iteration.
  destruct (poll_get pw tr _) as [response|e0] eqn:Hget; simpl.
  - destruct (status_code response =? 404) eqn:H404; [done|].
    destruct (Z.eqb_spec (status_code response) 200) as [H200|]; [|done].
    destruct (json_batch response) as [batch|e0] eqn:Hbatch; simpl.
    + destruct (process_batch_last_event (poll_worker pw
                  (tr ++ [PGet (base_request_url +:+ "/dequeue")
                            (Ok response)])) batch)
        as (url & st & out & Hlast & Hres & _).
      rewrite Hres. intros ->.
      destruct (snd (run _ batch)) as [|ev evs] using rev_ind; [done|].
      rewrite last_snoc in Hlast. injection Hlast as ->.
      rewrite fmap_app, app_assoc. simpl. by rewrite last_snoc.
    + intros [= ->]. by rewrite last_snoc.
  - intros [= ->]. by rewrite last_snoc.
Qed.

Lemma main_loop_crash (n : nat) :
  ∀ tr e, fst (main_loop pw n tr) = Raise e →
    crash_cause e (last (snd (main_loop pw n tr))).
Proof.
  induction n as [|n IH]; intros tr e; [done|]. simpl.
  pose proof (iteration_crash tr) as Hit.
  destruct (iteration pw tr) as [[[]|e0] tr0]; simpl in *.
  - apply IH.
  - intros [= ->]. by apply Hit.
Qed.

(** While the queue answers 404, a pass is a request and a sleep of 5. *)
Lemma main_loop_idle (n : nat) :
  (∀ tr url, ∃ response,
     poll_get pw tr url = Ok response ∧ status_code response = 404) →
  ∀ tr,
    fst (main_loop pw n tr) = Ok tt
    ∧ length (polls (snd (main_loop pw n tr))) = (length (polls tr) + n)%nat
    ∧ poll_sleeps (snd (main_loop pw n tr)) = poll_sleeps tr ++ replicate n 5
    ∧ worker_events (snd (main_loop pw n tr)) = worker_events tr.
Proof.
  intros Hidle. induction n as [|n IH]; intros tr.
  - simpl. rewrite app_nil_r. split_and!; try done; lia.
  - simpl. unfold iteration.
    destruct (Hidle tr (base_request_url +:+ "/dequeue"))
      as (response & -> & H404).
    rewrite H404. simpl.
    destruct (IH ((tr ++ [PGet (base_request_url +:+ "/dequeue") (Ok response)])
                  ++ [PSleep 5])) as (Hok & Hpolls & Hsleeps & Hworkers).
    rewrite Hok, Hpolls, Hsleeps, Hworkers.
    rewrite !polls_app, !poll_sleeps_app, !worker_events_app, !length_app.
    simpl. rewrite !app_nil_r, <- app_assoc. simpl.
    split_and!; try done; lia.
Qed.

(** When reading the batch of a response of status 200 always raises, and
    so far no batch was processed and no response had status 200: no batch
    is processed in the passes that follow, and a response of status 200
    is the last event, its exception ending the loop. *)
Lemma main_loop_unreadable (n : nat) :
  (∀ tr url response,
     poll_get pw tr url = Ok response → status_code response = 200 →
     ∃ e, json_batch response = Raise e) →
  ∀ tr,
    worker_events tr = [] →
    (∀ url response, PGet url (Ok response) ∈ tr →
       status_code response ≠ 200) →
    worker_events (snd (main_loop pw n tr)) = []
    ∧ ∀ url response,
        PGet url (Ok response) ∈ snd (main_loop pw n tr) →
        status_code response = 200 →
        last (snd (main_loop pw n tr)) = Some (PGet url (Ok response))
        ∧ ∃ e, json_batch response = Raise e
               ∧ fst (main_loop pw n tr) = Raise e.
Proof.
  intros Hjson. induction n as [|n IH]; intros tr Hworkers Hnone.
  - simpl. split; [done|]. intros url response Hin H200.
    by destruct (Hnone url response Hin).
  - simpl. unfold iteration.
    set (url0 := base_request_url +:+ "/dequeue").
    destruct (poll_get pw tr url0) as [response0|e0] eqn:Hget; simpl.
    2:{ rewrite worker_events_app, Hworkers. split; [done|].
        intros url response [Hin|Hin%list_elem_of_singleton]%elem_of_app H200;
          [by destruct (Hnone url response Hin)|done]. }
    destruct (Z.eqb_spec (status_code response0) 404) as [H404|H404].
    { apply IH.
      - by rewrite !worker_events_app, Hworkers.
      - intros url response
          [[Hin|Hin%list_elem_of_singleton]%elem_of_app
          |Hin%list_elem_of_singleton]%elem_of_app;
          [by apply (Hnone url)| |done].
        injection Hin as -> ->. lia. }
    destruct (Z.eqb_spec (status_code response0) 200) as [H200|H200].
    + destruct (Hjson tr url0 response0 Hget H200) as [e He].
      rewrite He. simpl. rewrite worker_events_app, Hworkers.
      split; [done|].
      intros url response [Hin|Hin%list_elem_of_singleton]%elem_of_app H200';
        [by destruct (Hnone url response Hin)|].
      injection Hin as -> ->. rewrite last_snoc. split; [done|].
      by exists e.
    + apply IH.
      * by rewrite !worker_events_app, Hworkers.
      * intros url response
          [[Hin|Hin%list_elem_of_singleton]%elem_of_app
          |Hin%list_elem_of_singleton]%elem_of_app;
          [by apply (Hnone url)| |done].
        by injection Hin as -> ->.
Qed.
End PollLoop.

(** X14: while the queue answers 404 the worker only polls and sleeps: [n]
    passes of the loop are [n] requests and [n] sleeps of 5 seconds, and no
    batch is processed. *)
Theorem polling_idle {Vec} (pw : PollWorld Vec) (n : nat) :
  (∀ tr url, ∃ response,
     poll_get pw tr url = Ok response ∧ status_code response = 404) →
  let tr := snd (main_loop pw n []) in
  fst (main_loop pw n []) = Ok tt
  ∧ length (polls tr) = n
  ∧ poll_sleeps tr = replicate n 5
  ∧ worker_events tr = [].
Proof. intros Hidle. by apply (main_loop_idle pw n Hidle []). Qed.

(** X14, witness. *)
Lemma polling_idle_witness :
  (∀ tr url, ∃ response,
     poll_get empty_queue tr url = Ok response ∧ status_code response = 404)
  ∧ fst (main_loop empty_queue 3 []) = Ok tt
  ∧ length (polls (snd (main_loop empty_queue 3 []))) = 3%nat
  ∧ poll_sleeps (snd (main_loop empty_queue 3 [])) = replicate 3 5
  ∧ worker_events (snd (main_loop empty_queue 3 [])) = [].
Proof.
  split.
  - intros tr url. eexists. split; reflexivity.
  - apply (polling_idle empty_queue 3). intros tr url.
    eexists. split; reflexivity.
Defined.

(** X15: the loop catches nothing.  It ends with an exception only when the
    dequeue request raises, when a response of status 200 has no readable
    batch, or when the last status report of [process_batch] raises; and
    once it has ended, no further pass runs. *)
Theorem polling_crash {Vec} (pw : PollWorld Vec) (n : nat) e :
  fst (main_loop pw n []) = Raise e →
  crash_cause e (last (snd (main_loop pw n [])))
  ∧ ∀ k : nat, main_loop pw (n + k) [] = main_loop pw n [].
Proof.
  intros Hraise. split; [by apply main_loop_crash|].
  intros k. destruct (main_loop pw n []) as [res tr] eqn:Hloop.
  simpl in Hraise. subst res. by apply main_loop_raise_stable.
Qed.

(** X15, witness: the status endpoint is down, so the first
    batch ends the loop. *)
Lemma polling_crash_witness :
  let pw := full_queue (a_batch "OPEN_AI" "PINECONE" 4 1)
              (a_world provider_up true true false) in
  fst (main_loop pw 2 []) = Raise (RemoteError "ConnectionError")
  ∧ crash_cause (RemoteError "ConnectionError")
      (last (snd (main_loop pw 2 [])))
  ∧ ∀ k : nat, main_loop pw (2 + k) [] = main_loop pw 2 [].
Proof.
  split; [reflexivity|].
  apply (polling_crash
           (full_queue (a_batch "OPEN_AI" "PINECONE" 4 1)
              (a_world provider_up true true false)) 2).
  reflexivity.
Defined.

(** X16: the loop reads the batch as [response.json['batch']].  When that
    subscript raises on every response of status 200 (as it does on the
    response of [requests.get], whose [json] is a method), [process_batch]
    is never called, and a response of status 200 is the last thing the
    loop sees: the exception of the subscript ends the loop. *)
Theorem polling_unreadable_batch {Vec} (pw : PollWorld Vec) (n : nat) :
  (∀ tr url response,
     poll_get pw tr url = Ok response → status_code response = 200 →
     ∃ e, json_batch response = Raise e) →
  let tr := snd (main_loop pw n []) in
  worker_events tr = []
  ∧ ∀ url response,
      PGet url (Ok response) ∈ tr → status_code response = 200 →
      last tr = Some (PGet url (Ok response))
      ∧ ∃ e, json_batch response = Raise e
             ∧ fst (main_loop pw n []) = Raise e.
Proof.
  intros Hjson. apply (main_loop_unreadable pw n Hjson []); [done|].
  by intros url response ?%not_elem_of_nil.
Qed.

(** X16, witness: a 404, then a 200 whose batch cannot be read; the third
    pass never runs. *)
Lemma polling_unreadable_batch_witness :
  (∀ tr url response,
     poll_get unreadable_queue tr url = Ok response →
     status_code response = 200 →
     ∃ e, json_batch response = Raise e)
  ∧ fst (main_loop unreadable_queue 3 []) = Raise LookupError
  ∧ length (polls (snd (main_loop unreadable_queue 3 []))) = 2%nat
  ∧ worker_events (snd (main_loop unreadable_queue 3 [])) = []
  ∧ ∀ url response,
      PGet url (Ok response) ∈ snd (main_loop unreadable_queue 3 []) →
      status_code response = 200 →
      last (snd (main_loop unreadable_queue 3 []))
      = Some (PGet url (Ok response))
      ∧ ∃ e, json_batch response = Raise e
             ∧ fst (main_loop unreadable_queue 3 []) = Raise e.
Proof.
  assert (∀ tr url response,
            poll_get unreadable_queue tr url = Ok response →
            status_code response = 200 →
            ∃ e, json_batch response = Raise e) as Hjson.
  { intros tr url response Hget _. injection Hget as <-.
    exists LookupError. reflexivity. }
  split; [exact Hjson|]. split; [reflexivity|]. split; [reflexivity|].
  apply (polling_unreadable_batch unreadable_queue 3 Hjson).
Defined.
